(** * EdgeX collector (python.d.plugin/edgex/edgex.chart.py)

    A shallow embedding of the collector's fetch-and-merge cycle:
    the per-source routines, the [get_survive_any] wrapper, the set-up
    of the method table and [_get_data], the fan-out over threads with
    a shared queue.

    Python values are modelled as follows.  A [str] is a [string], one
    [ascii] per character.  A [dict] is a [gmap]; [d1.update(d2)] is
    [d2 ∪ d1] (stdpp's union keeps the left operand on common keys).
    An [int] is a [Z].  A routine that may raise and that acts on the
    shared queue is a computation in the monad [M] below. *)

From Stdlib Require Import ZArith Ascii String.
From stdpp Require Import gmap strings list fin_maps.

Local Open Scope Z_scope.

(** ** Python values *)

(** What [json.loads] may return; [int(raw)] yields a [JInt].  A float
    is kept as the text of its literal: the collector never computes
    with it. *)
#[warnings="-register-all"]
Inductive json : Type :=
  | JNull
  | JBool (b : bool)
  | JInt (z : Z)
  | JFloat (lit : string)
  | JStr (s : string)
  | JArr (items : list json)
  | JObj (members : gmap string json).

(** A metric fragment: the [data] dict of a routine, and [result]. *)
Abbreviation fragment := (gmap string json).

Inductive exn : Type :=
  | ValueError
  | KeyError (key : string)
  | TypeError
  | OtherError (msg : string).

(** [obj[key]] with a string key. *)
Definition py_getitem (obj : json) (key : string) : exn + json :=
  match obj with
  | JObj members =>
      match members !! key with
      | Some v => inr v
      | None => inl (KeyError key)
      end
  | _ => inl TypeError
  end.

(** [len(obj)]. *)
Definition py_len (obj : json) : exn + Z :=
  match obj with
  | JStr s => inr (Z.of_nat (String.length s))
  | JArr items => inr (Z.of_nat (length items))
  | JObj members => inr (Z.of_nat (size members))
  | _ => inl TypeError
  end.

(** [sub in s] on strings. *)
Fixpoint str_in (sub s : string) : bool :=
  String.prefix sub s ||
  match s with
  | EmptyString => false
  | String _ s' => str_in sub s'
  end.

(** ** The shared state and the monad of the routines *)

(** The [Queue] of one cycle and what was passed to [self.error]. *)
Record world : Type := World {
  queue : list fragment;
  errors : list (string * exn)
}.

Definition M (A : Type) : Type := world -> (exn + A) * world.

Definition ret {A} (a : A) : M A := fun w => (inr a, w).

Definition bind {A B} (c : M A) (k : A -> M B) : M B :=
  fun w =>
    match c w with
    | (inr a, w') => k a w'
    | (inl e, w') => (inl e, w')
    end.

Notation "x <- c ;; k" := (bind c (fun x => k))
  (at level 100, c at next level, right associativity).

(** A pure call that returns or raises. *)
Definition lift {A} (r : exn + A) : M A := fun w => (r, w).

(** [queue.put(frag)]; the queue is unbounded, so [put] never blocks. *)
Definition queue_put (frag : fragment) : M unit :=
  fun w => (inr tt, World (queue w ++ [frag]) (errors w)).

(** [self.error("error during '{0}' : {1}".format(url, error))]. *)
Definition self_error (url : string) (error : exn) : M unit :=
  fun w => (inr tt, World (queue w) (errors w ++ [(url, error)])).

(** [try: c  except Exception as error: handler error]. *)
Definition try_except {A} (c : M A) (handler : exn -> M A) : M A :=
  fun w =>
    match c w with
    | (inr a, w') => (inr a, w')
    | (inl error, w') => handler error w'
    end.

(** [result or None]: an empty dict is falsy. *)
Definition or_None (result : fragment) : option fragment :=
  if bool_decide (size result = 0%nat) then None else Some result.

(** What a call of [_get_data] can do. *)
Inductive outcome : Type :=
  | Returned (r : option fragment)
  | Raised (e : exn)
  | Blocked.

(** ** Configuration and service object *)

(** The job configuration; an option missing from the job is [None]
    and [get] supplies the default, as [self.configuration.get]. *)
Record job_config : Type := JobConfig {
  protocol : option string;
  host : option string;
  port_logging : option string;
  port_data : option string;
  port_metadata : option string;
  port_command : option string;
  events_per_second : option bool;
  number_of_devices : option bool;
  metrics : option bool
}.

Definition get {A} (o : option A) (dflt : A) : A :=
  match o with Some v => v | None => dflt end.

Record Service : Type := MkService {
  configuration : job_config;
  url : string;
  edgex_ports : gmap string string;
  url_core_data : string;
  url_core_metadata : string;
  url_core_command : string;
  url_support_logging : string
}.

Module METHODS.
Record t : Type := Make {
  get_data : string -> M unit;
  url : string;
  run : bool
}.
End METHODS.

Definition __init__ (configuration : job_config) : Service :=
  let url :=
    get (protocol configuration) "http" +:+ "://" +:+
    get (host configuration) "localhost" in
  let edgex_ports : gmap string string :=
    <["core_command" := get (port_command configuration) "48082"]>
    (<["core_metadata" := get (port_metadata configuration) "48081"]>
    (<["core_data" := get (port_data configuration) "48080"]>
    (<["support_logging" := get (port_logging configuration) "48061"]> ∅))) in
  (* init_urls *)
  MkService configuration url edgex_ports
    (url +:+ ":" +:+ edgex_ports !!! "core_data" +:+ "/api/v1/")
    (url +:+ ":" +:+ edgex_ports !!! "core_metadata" +:+ "/api/v1/")
    (url +:+ ":" +:+ edgex_ports !!! "core_command" +:+ "/api/v1/")
    (url +:+ ":" +:+ edgex_ports !!! "support_logging" +:+ "/api/v1/").

(** ** The collector *)

Section Collector.

(** The collaborators the module does not define: the fetch inherited
    from [UrlService] (the raw body, [None], or an exception), and the
    built-ins [int] and [json.loads]. *)
Variable _get_raw_data : string -> exn + option string.
Variable int : string -> exn + Z.
Variable json_loads : string -> exn + json.

(** The decorator: the wrapped routine returns nothing; an exception
    of the routine is reported and an empty fragment is enqueued. *)
Definition get_survive_any (method : Service -> string -> M unit)
    (self : Service) (url : string) : M unit :=
  try_except
    (method self url)
    (fun error =>
       _ <- self_error url error ;;
       queue_put ∅).

Definition _get_core_throughput_readings : Service -> string -> M unit :=
  get_survive_any (fun self url =>
    let data : fragment := ∅ in
    let readings_count_url := url +:+ "reading/count" in
    raw <- lift (_get_raw_data readings_count_url) ;;
    match raw with
    | None | Some EmptyString => queue_put ∅
    | Some raw =>
        raw <- lift (int raw) ;;
        let data := <["readings" := JInt raw]> data in
        let data :=
          if str_in "event" url then <["events" := JInt raw]> data else data in
        queue_put data
    end).

Definition _get_core_throughput_events : Service -> string -> M unit :=
  get_survive_any (fun self url =>
    let data : fragment := ∅ in
    let events_count_url := url +:+ "event/count" in
    raw <- lift (_get_raw_data events_count_url) ;;
    match raw with
    | None | Some EmptyString => queue_put ∅
    | Some raw =>
        raw <- lift (int raw) ;;
        let data := <["events" := JInt raw]> data in
        queue_put data
    end).

Definition _get_device_info : Service -> string -> M unit :=
  get_survive_any (fun self url =>
    let data : fragment := ∅ in
    let device_count_url := url +:+ "device" in
    raw <- lift (_get_raw_data device_count_url) ;;
    match raw with
    | None | Some EmptyString => queue_put ∅
    | Some raw =>
        parsed <- lift (json_loads raw) ;;
        n <- lift (py_len parsed) ;;
        let data := <["registered_devices" := JInt n]> data in
        queue_put data
    end).

(** [self.edgex_ports[name]]. *)
Definition port (self : Service) (name : string) : M string :=
  match edgex_ports self !! name with
  | Some p => ret p
  | None => lift (inl (KeyError name))
  end.

(** [parsed["Memory"][field]]. *)
Definition memory (parsed : json) (field : string) : M json :=
  m <- lift (py_getitem parsed "Memory") ;;
  lift (py_getitem m field).

Definition _get_metrics_data : Service -> string -> M unit :=
  get_survive_any (fun self url =>
    let data : fragment := ∅ in
    let metrics_url := url +:+ "metrics" in
    raw <- lift (_get_raw_data metrics_url) ;;
    match raw with
    | None | Some EmptyString => queue_put ∅
    | Some raw =>
        parsed <- lift (json_loads raw) ;;
        p <- port self "core_data" ;;
        if str_in p url then
          v <- memory parsed "Alloc" ;;
          let data := <["core_data_alloc" := v]> data in
          v <- memory parsed "Mallocs" ;;
          let data := <["core_data_malloc" := v]> data in
          v <- memory parsed "Frees" ;;
          let data := <["core_data_frees" := v]> data in
          v <- memory parsed "LiveObjects" ;;
          let data := <["core_data_live_objects" := v]> data in
          queue_put data
        else
        p <- port self "core_metadata" ;;
        if str_in p url then
          v <- memory parsed "Alloc" ;;
          let data := <["core_metadata_alloc" := v]> data in
          v <- memory parsed "Mallocs" ;;
          let data := <["core_metadata_malloc" := v]> data in
          v <- memory parsed "Frees" ;;
          let data := <["core_metadata_frees" := v]> data in
          v <- memory parsed "LiveObjects" ;;
          let data := <["core_metadata_live_objects" := v]> data in
          queue_put data
        else
        p <- port self "core_command" ;;
        if str_in p url then
          v <- memory parsed "Alloc" ;;
          let data := <["core_command_alloc" := v]> data in
          v <- memory parsed "Mallocs" ;;
          let data := <["core_command_malloc" := v]> data in
          v <- memory parsed "Frees" ;;
          let data := <["core_command_frees" := v]> data in
          queue_put data
        else
        p <- port self "support_logging" ;;
        if str_in p url then
          v <- memory parsed "Alloc" ;;
          let data := <["support_logging_alloc" := v]> data in
          v <- memory parsed "Mallocs" ;;
          let data := <["support_logging_malloc" := v]> data in
          v <- memory parsed "Frees" ;;
          let data := <["support_logging_frees" := v]> data in
          v <- memory parsed "LiveObjects" ;;
          let data := <["support_logging_live_objects" := v]> data in
          queue_put data
        else
          queue_put data
    end).

(** [init_methods]: the table [self.methods]. *)
Definition methods (self : Service) : list METHODS.t :=
  let configuration := configuration self in
  [ METHODS.Make (_get_core_throughput_events self) (url_core_data self)
      (get (events_per_second configuration) true);
    METHODS.Make (_get_core_throughput_readings self) (url_core_data self)
      (get (events_per_second configuration) true);
    METHODS.Make (_get_device_info self) (url_core_metadata self)
      (get (number_of_devices configuration) true);
    METHODS.Make (_get_metrics_data self) (url_core_metadata self)
      (get (metrics configuration) true);
    METHODS.Make (_get_metrics_data self) (url_core_data self)
      (get (metrics configuration) true);
    METHODS.Make (_get_metrics_data self) (url_core_command self)
      (get (metrics configuration) true);
    METHODS.Make (_get_metrics_data self) (url_support_logging self)
      (get (metrics configuration) true) ].

(** The first loop of [_get_data]: one thread per method whose [run]
    is set, in the order of the table. *)
Definition start_threads (methods : list METHODS.t) : list (M unit) :=
  foldl
    (fun threads method =>
       if negb (METHODS.run method) then threads
       else threads ++ [METHODS.get_data method (METHODS.url method)])
    [] methods.

(** The threads run concurrently; only [queue.put] and [self.error]
    touch shared state, so an execution is determined by the order in
    which the threads get to run, the [schedule] (thread indices).  An
    exception that leaves a thread's target ends that thread and
    reaches nobody. *)
Definition run_thread (target : M unit) (w : world) : world :=
  snd (target w).

Definition run_threads (threads : list (M unit)) (schedule : list nat)
    (w : world) : world :=
  foldl
    (fun w i =>
       match threads !! i with
       | Some target => run_thread target w
       | None => w
       end)
    w schedule.

(** The second loop: per thread, [thread.join()] and then
    [result.update(queue.get())].  [queue.get()] on a queue that stays
    empty never returns: [None]. *)
Fixpoint join_all (threads : list (M unit)) (q : list fragment)
    (result : fragment) : option fragment :=
  match threads with
  | [] => Some result
  | _ :: threads =>
      match q with
      | [] => None
      | frag :: q => join_all threads q (frag ∪ result)
      end
  end.

Definition _get_data (self : Service) (schedule : list nat) : outcome :=
  let threads := start_threads (methods self) in
  let w := run_threads threads schedule (World [] []) in
  match join_all threads (queue w) ∅ with
  | None => Blocked
  | Some result => Returned (or_None result)
  end.

End Collector.

(** ** A runtime to run the collector on concrete inputs

    [Runtime.int] follows Python 3's [int] on ASCII text, and
    [Runtime.json_loads] its [json.loads] on ASCII text without
    [\u] escapes.  The facts proved about the collector hold for every
    fetcher and every pair of decoders; these are the ones the examples
    run with. *)
Module Runtime.

(** The white space [int] strips from ASCII text: tab to carriage
    return, and the space. *)
Definition is_space (c : ascii) : bool :=
  let n := nat_of_ascii c in
  ((9 <=? n)%nat && (n <=? 13)%nat) || (n =? 32)%nat.

Fixpoint lstrip (s : string) : string :=
  match s with
  | String c s' => if is_space c then lstrip s' else s
  | EmptyString => EmptyString
  end.

Definition strip (s : string) : string :=
  String.rev (lstrip (String.rev (lstrip s))).

Definition digit (c : ascii) : option Z :=
  let n := nat_of_ascii c in
  if ((48 <=? n)%nat && (n <=? 57)%nat) then Some (Z.of_nat (n - 48)) else None.

(** Digits, a single underscore allowed between two of them. *)
Fixpoint digits (acc : Z) (after_digit : bool) (s : string) : option Z :=
  match s with
  | EmptyString => if after_digit then Some acc else None
  | String c s' =>
      match digit c with
      | Some d => digits (10 * acc + d) true s'
      | None =>
          if Ascii.eqb c "_" && after_digit then digits acc false s' else None
      end
  end.

Definition int (s : string) : exn + Z :=
  let signed :=
    match strip s with
    | String "-" s' => (-1, s')
    | String "+" s' => (1, s')
    | s' => (1, s')
    end in
  match digits 0 false (snd signed) with
  | Some n => inr (fst signed * n)
  | None => inl ValueError
  end.

Definition is_json_space (c : ascii) : bool :=
  let n := nat_of_ascii c in
  (n =? 32)%nat || (n =? 9)%nat || (n =? 10)%nat || (n =? 13)%nat.

Fixpoint skip_ws (s : string) : string :=
  match s with
  | String c s' => if is_json_space c then skip_ws s' else s
  | EmptyString => EmptyString
  end.

Definition dquote : ascii := ascii_of_nat 34.

(** Examples write JSON text with apostrophes for the quotes. *)
Fixpoint dq (s : string) : string :=
  match s with
  | String c s' => String (if Ascii.eqb c "'" then dquote else c) (dq s')
  | EmptyString => EmptyString
  end.

Definition unescape (c : ascii) : option ascii :=
  if Ascii.eqb c dquote then Some dquote else
  match c with
  | "\"%char => Some "\"%char
  | "/"%char => Some "/"%char
  | "b"%char => Some (ascii_of_nat 8)
  | "f"%char => Some (ascii_of_nat 12)
  | "n"%char => Some (ascii_of_nat 10)
  | "r"%char => Some (ascii_of_nat 13)
  | "t"%char => Some (ascii_of_nat 9)
  | _ => None
  end.

(** The characters of a string literal after its opening quote, and
    what follows the closing quote. *)
Fixpoint scan_string (s : string) : option (string * string) :=
  match s with
  | EmptyString => None
  | String c s' =>
      if Ascii.eqb c dquote then Some (EmptyString, s')
      else if Ascii.eqb c "\" then
        match s' with
        | String e s'' =>
            match unescape e, scan_string s'' with
            | Some c', Some (str, rest) => Some (String c' str, rest)
            | _, _ => None
            end
        | EmptyString => None
        end
      else if (nat_of_ascii c <? 32)%nat then None
      else
        match scan_string s' with
        | Some (str, rest) => Some (String c str, rest)
        | None => None
        end
  end.

Fixpoint span_digits (s : string) : string * string :=
  match s with
  | String c s' =>
      match digit c with
      | Some _ => let (ds, rest) := span_digits s' in (String c ds, rest)
      | None => (EmptyString, s)
      end
  | EmptyString => (EmptyString, EmptyString)
  end.

Fixpoint decimal (acc : Z) (ds : string) : Z :=
  match ds with
  | String c ds' => decimal (10 * acc + default 0 (digit c)) ds'
  | EmptyString => acc
  end.

(** A number literal: an optional minus, [0] or a digit string without
    leading zero, an optional fraction, an optional exponent. *)
Definition scan_number (s : string) : option (json * string) :=
  let (sign, s1) :=
    match s with String "-" s' => ("-", s') | _ => (EmptyString, s) end in
  let (ip, s2) :=
    match s1 with
    | String "0" s' => ("0", s')
    | _ => span_digits s1
    end in
  match ip with
  | EmptyString => None
  | _ =>
      let (frac, s3) :=
        match s2 with
        | String "." s' =>
            match span_digits s' with
            | (EmptyString, _) => (EmptyString, s2)
            | (ds, rest) => ("." +:+ ds, rest)
            end
        | _ => (EmptyString, s2)
        end in
      let (exp, s4) :=
        match s3 with
        | String e s' =>
            if Ascii.eqb e "e" || Ascii.eqb e "E" then
              let (esign, s'') :=
                match s' with
                | String "-" t => ("-", t)
                | String "+" t => ("+", t)
                | _ => (EmptyString, s')
                end in
              match span_digits s'' with
              | (EmptyString, _) => (EmptyString, s3)
              | (ds, rest) => (String e (esign +:+ ds), rest)
              end
            else (EmptyString, s3)
        | EmptyString => (EmptyString, s3)
        end in
      match frac, exp with
      | EmptyString, EmptyString =>
          Some (JInt (if String.eqb sign "-" then - decimal 0 ip else decimal 0 ip), s4)
      | _, _ => Some (JFloat (sign +:+ ip +:+ frac +:+ exp), s4)
      end
  end.

(** [word] at the head of [s]: what follows it. *)
Fixpoint after (word s : string) : option string :=
  match word, s with
  | EmptyString, _ => Some s
  | String a word', String b s' => if Ascii.eqb a b then after word' s' else None
  | _, _ => None
  end.

Definition scan_constant (s : string) : option (json * string) :=
  match after "null" s, after "true" s, after "false" s with
  | Some rest, _, _ => Some (JNull, rest)
  | _, Some rest, _ => Some (JBool true, rest)
  | _, _, Some rest => Some (JBool false, rest)
  | _, _, _ =>
      match after "NaN" s, after "Infinity" s, after "-Infinity" s with
      | Some rest, _, _ => Some (JFloat "NaN", rest)
      | _, Some rest, _ => Some (JFloat "Infinity", rest)
      | _, _, Some rest => Some (JFloat "-Infinity", rest)
      | _, _, _ => scan_number s
      end
  end.

Fixpoint scan_value (fuel : nat) (s : string) {struct fuel}
    : option (json * string) :=
  match fuel with
  | O => None
  | S fuel =>
      match s with
      | String "[" s1 =>
          match skip_ws s1 with
          | String "]" s2 => Some (JArr [], s2)
          | s2 =>
              match scan_items fuel s2 with
              | Some (items, rest) => Some (JArr items, rest)
              | None => None
              end
          end
      | String "{" s1 =>
          match skip_ws s1 with
          | String "}" s2 => Some (JObj ∅, s2)
          | s2 =>
              match scan_members fuel ∅ s2 with
              | Some (members, rest) => Some (JObj members, rest)
              | None => None
              end
          end
      | String c s1 =>
          if Ascii.eqb c dquote then
            match scan_string s1 with
            | Some (str, rest) => Some (JStr str, rest)
            | None => None
            end
          else scan_constant s
      | EmptyString => None
      end
  end
with scan_items (fuel : nat) (s : string) {struct fuel}
    : option (list json * string) :=
  match fuel with
  | O => None
  | S fuel =>
      match scan_value fuel s with
      | Some (v, rest) =>
          match skip_ws rest with
          | String "," rest' =>
              match scan_items fuel (skip_ws rest') with
              | Some (vs, rest'') => Some (v :: vs, rest'')
              | None => None
              end
          | String "]" rest' => Some ([v], rest')
          | _ => None
          end
      | None => None
      end
  end
with scan_members (fuel : nat) (members : gmap string json) (s : string)
    {struct fuel} : option (gmap string json * string) :=
  match fuel with
  | O => None
  | S fuel =>
      match s with
      | String c s1 =>
          match (if Ascii.eqb c dquote then scan_string s1 else None) with
          | Some (key, rest) =>
              match skip_ws rest with
              | String ":" rest' =>
                  match scan_value fuel (skip_ws rest') with
                  | Some (v, rest'') =>
                      let members := <[key := v]> members in
                      match skip_ws rest'' with
                      | String "," r => scan_members fuel members (skip_ws r)
                      | String "}" r => Some (members, r)
                      | _ => None
                      end
                  | None => None
                  end
              | _ => None
              end
          | None => None
          end
      | EmptyString => None
      end
  end.

Definition json_loads (s : string) : exn + json :=
  match scan_value (2 * String.length s + 2) (skip_ws s) with
  | Some (v, rest) =>
      match skip_ws rest with
      | EmptyString => inr v
      | _ => inl ValueError
      end
  | None => inl ValueError
  end.

(** A network that answers the listed URLs and no other. *)
Fixpoint responses (table : list (string * string)) (url : string)
    : exn + option string :=
  match table with
  | [] => inr None
  | (u, body) :: table =>
      if String.eqb u url then inr (Some body) else responses table url
  end.

End Runtime.



(** ** Vocabulary of the properties *)

(** The fragments a thread target enqueues, and the errors it reports,
    when run on a fresh queue. *)
Definition produced (target : M unit) : list fragment :=
  queue (snd (target (World [] []))).

Definition reported (target : M unit) : list (string * exn) :=
  errors (snd (target (World [] []))).

(** [result] after the second loop has taken the fragments [q], in
    this order, from the queue. *)
Definition merged (q : list fragment) : fragment :=
  foldl (fun result frag => frag ∪ result) ∅ q.

(** The fragments of a cycle, in the order of the threads. *)
Definition fragments (threads : list (M unit)) : list fragment :=
  threads ≫= produced.

(** The fragments in the order in which the second loop takes them
    from the queue. *)
Definition dequeued (threads : list (M unit)) (schedule : list nat)
    : list fragment :=
  queue (run_threads threads schedule (World [] [])).

(** Every thread gets to run, once. *)
Definition fair (threads : list (M unit)) (schedule : list nat) : Prop :=
  schedule ≡ₚ seq 0 (length threads).

(** No two fragments of the list have a key in common. *)
Definition keys_apart (q : list fragment) : Prop :=
  forall i j fi fj,
    i ≠ j -> q !! i = Some fi -> q !! j = Some fj -> dom fi ## dom fj.

(** A check of [keys_apart] that runs. *)
Fixpoint all_apart (q : list fragment) : bool :=
  match q with
  | [] => true
  | frag :: q =>
      forallb (fun g => bool_decide (dom frag ∩ dom g = ∅)) q && all_apart q
  end.

(** No thread other than thread [i] enqueues a fragment with the key
    [k]. *)
Definition unshared (threads : list (M unit)) (i : nat) (k : string) : Prop :=
  forall j other,
    j ≠ i -> threads !! j = Some other ->
    Forall (fun g => g !! k = None) (produced other).

(** A check of [unshared] that runs, on the fragments of the cycle. *)
Definition alone (q : list fragment) (i : nat) (k : string) : bool :=
  forallb (fun g => bool_decide (g !! k = None)) (delete i q).

(** The four services whose port [_get_metrics_data] looks for, in the
    order of its tests. *)
Inductive service : Type :=
  | core_data
  | core_metadata
  | core_command
  | support_logging.

Definition services : list service :=
  [core_data; core_metadata; core_command; support_logging].

Definition service_name (s : service) : string :=
  match s with
  | core_data => "core_data"
  | core_metadata => "core_metadata"
  | core_command => "core_command"
  | support_logging => "support_logging"
  end.

(** [self.edgex_ports[s] in url]. *)
Definition port_in (self : Service) (url : string) (s : service) : bool :=
  match edgex_ports self !! service_name s with
  | Some p => str_in p url
  | None => false
  end.

(** The service a URL is attributed to: the first, in the fixed order,
    whose configured port occurs in the URL. *)
Definition attribution (self : Service) (url : string) : option service :=
  List.find (port_in self url) services.

(** The fields of the runtime metrics of a service. *)
Definition metric_fields (s : service) : gset string :=
  {[ service_name s +:+ "_alloc";
     service_name s +:+ "_malloc";
     service_name s +:+ "_frees" ]} ∪
  match s with
  | core_command => ∅
  | _ => {[ service_name s +:+ "_live_objects" ]}
  end.

(** The fragment of the runtime metrics of a service; a service that
    is [core_command] has no [live_objects]. *)
Definition metrics_fragment (s : service) (alloc mallocs frees live : json)
    : fragment :=
  let counted : fragment :=
    <[service_name s +:+ "_frees" := frees]>
    (<[service_name s +:+ "_malloc" := mallocs]>
    (<[service_name s +:+ "_alloc" := alloc]> ∅)) in
  match s with
  | core_command => counted
  | _ => <[service_name s +:+ "_live_objects" := live]> counted
  end.

(** The place of a service in the order of the tests. *)
Definition rank (s : service) : nat :=
  match s with
  | core_data => 0
  | core_metadata => 1
  | core_command => 2
  | support_logging => 3
  end.

(** The source kinds of the table of response parsers. *)
Inductive source_kind : Type :=
  | event_count
  | reading_count
  | device_list
  | runtime_metrics.

(** The fields a source contributes when its routine runs to its end. *)
Definition source_fields (kind : source_kind) (self : Service)
    (url : string) : gset string :=
  match kind with
  | event_count => {[ "events" ]}
  | reading_count =>
      if str_in "event" url then {[ "readings"; "events" ]} else {[ "readings" ]}
  | device_list => {[ "registered_devices" ]}
  | runtime_metrics =>
      match attribution self url with
      | Some s => metric_fields s
      | None => ∅
      end
  end.

(** The path a source's routine appends to its URL. *)
Definition endpoint (kind : source_kind) : string :=
  match kind with
  | event_count => "event/count"
  | reading_count => "reading/count"
  | device_list => "device"
  | runtime_metrics => "metrics"
  end.

(** [parsed["Memory"][field]] as a value. *)
Definition memory_value (parsed : json) (field : string) : exn + json :=
  match py_getitem parsed "Memory" with
  | inl e => inl e
  | inr m => py_getitem m field
  end.

(** The members of [Memory] the routine reads for a service. *)
Definition required (s : service) : list string :=
  match s with
  | core_command => ["Alloc"; "Mallocs"; "Frees"]
  | _ => ["Alloc"; "Mallocs"; "Frees"; "LiveObjects"]
  end.

(** Every service has an entry in [self.edgex_ports]. *)
Definition ports_configured (self : Service) : Prop :=
  forall s, is_Some (edgex_ports self !! service_name s).

(** A fetch that failed: an exception, [None] or an empty body. *)
Definition fetch_failed (fetched : exn + option string) : Prop :=
  match fetched with
  | inr (Some (String _ _)) => False
  | _ => True
  end.

(** ** Plans of the routine bodies *)

(** A routine body is pure up to its single [queue.put]: it runs as a
    plan, the exception it raises or the fragment it enqueues. *)
Definition runs_as (c : M unit) (plan : exn + fragment) : Prop :=
  forall w,
    c w = match plan with
          | inr frag => (inr tt, World (queue w ++ [frag]) (errors w))
          | inl e => (inl e, w)
          end.

(** What a wrapped routine does, given the plan of its body. *)
Definition plan_fragment (plan : exn + fragment) : fragment :=
  match plan with inr frag => frag | inl _ => ∅ end.

Definition plan_errors (url : string) (plan : exn + fragment)
    : list (string * exn) :=
  match plan with inr _ => [] | inl e => [(url, e)] end.

Definition unit_runs (target : M unit) (url : string)
    (plan : exn + fragment) : Prop :=
  forall w,
    target w =
    (inr tt,
     World (queue w ++ [plan_fragment plan]) (errors w ++ plan_errors url plan)).

(** A computation has a plan that satisfies [Φ]. *)
Definition plans (c : M unit) (Φ : exn + fragment -> Prop) : Prop :=
  exists plan, runs_as c plan /\ Φ plan.

(** A thread target that reports exactly once, whatever the state. *)
Definition reporting (target : M unit) : Prop :=
  exists url plan, unit_runs target url plan.

(** What thread [i] contributes when it gets to run. *)
Definition turn (threads : list (M unit)) (i : nat) : list fragment :=
  match threads !! i with
  | Some target => produced target
  | None => []
  end.

(** ** The cycle as interleaved steps

    A finer view of [_get_data]: the threads and the second loop take
    steps in any order.  A thread runs to its end in one step (its
    fetch and its decoding touch no shared state; its only shared
    action is one [queue.put], or [self.error] and one [queue.put]).
    The second loop takes its next step when the thread it joins has
    finished and the queue holds a fragment. *)
Record cycle : Type := Cycle {
  finished : list nat;
  shared : world;
  joined : nat;
  result : fragment
}.

Definition started : cycle := Cycle [] (World [] []) 0 ∅.

Inductive step (threads : list (M unit)) : cycle -> cycle -> Prop :=
  | step_thread st i target :
      threads !! i = Some target ->
      i ∉ finished st ->
      step threads st
        (Cycle (finished st ++ [i]) (run_thread target (shared st))
           (joined st) (result st))
  | step_loop st frag q :
      (joined st < length threads)%nat ->
      joined st ∈ finished st ->
      queue (shared st) = frag :: q ->
      step threads st
        (Cycle (finished st) (World q (errors (shared st)))
           (S (joined st)) (frag ∪ result st)).

(** The interleaved cycle can come to its [return] with [r]. *)
Definition returns (threads : list (M unit)) (r : option fragment) : Prop :=
  exists st,
    rtc (step threads) started st /\
    joined st = length threads /\
    r = or_None (result st).

(** What holds of every state the interleaved cycle reaches. *)
Record reachable_inv (threads : list (M unit)) (st : cycle) : Prop := {
  inv_nodup : NoDup (finished st);
  inv_bound : forall i, i ∈ finished st -> (i < length threads)%nat;
  inv_joined : forall i, (i < joined st)%nat -> i ∈ finished st;
  inv_taken :
    exists taken,
      length taken = joined st /\
      taken ++ queue (shared st) = finished st ≫= turn threads /\
      result st = merged taken
}.

Section Routines.

Variable _get_raw_data : string -> exn + option string.
Variable int : string -> exn + Z.
Variable json_loads : string -> exn + json.

(** The routine of a source kind, as the method table binds it. *)
Definition routine (kind : source_kind) : Service -> string -> M unit :=
  match kind with
  | event_count => _get_core_throughput_events _get_raw_data int
  | reading_count => _get_core_throughput_readings _get_raw_data int
  | device_list => _get_device_info _get_raw_data json_loads
  | runtime_metrics => _get_metrics_data _get_raw_data json_loads
  end.

(** A body that does not parse for its source kind: a malformed
    integer, invalid JSON, a value without length, a missing key. *)
Definition parse_failed (kind : source_kind) (self : Service)
    (url raw : string) : Prop :=
  match kind with
  | event_count | reading_count => exists e, int raw = inl e
  | device_list =>
      (exists e, json_loads raw = inl e) \/
      (exists parsed e, json_loads raw = inr parsed /\ py_len parsed = inl e)
  | runtime_metrics =>
      (exists e, json_loads raw = inl e) \/
      (exists parsed s field e,
          json_loads raw = inr parsed /\
          attribution self url = Some s /\
          field ∈ required s /\
          memory_value parsed field = inl e)
  end.

(** The plan of a routine body, by the outcome of its fetch. *)
Definition plan_of_fetch (kind : source_kind) (self : Service) (url : string)
    (plan : exn + fragment) : Prop :=
  match _get_raw_data (url +:+ endpoint kind) with
  | inl e => plan = inl e
  | inr None | inr (Some EmptyString) => plan = inr ∅
  | inr (Some raw) =>
      match plan with
      | inr frag =>
          dom frag = source_fields kind self url /\
          ~ parse_failed kind self url raw
      | inl _ => parse_failed kind self url raw \/ ~ ports_configured self
      end
  end.

End Routines.

(** ** Inputs of the examples *)

(** A job that sets no option: every default applies. *)
Definition default_config : job_config :=
  JobConfig None None None None None None None None None.

(** A job whose host name contains [event]. *)
Definition event_host_config : job_config :=
  JobConfig None (Some "event-gw") None None None None None None None.

(** A job whose host name contains [event] and [reading]. *)
Definition mirror_host_config : job_config :=
  JobConfig None (Some "event-reading-gw") None None None None None None None.

(** The scenario of the testable properties: the event count and the
    device list answer, nothing else does. *)
Definition scenario_net : string -> exn + option string :=
  Runtime.responses
    [ ("http://localhost:48080/api/v1/event/count", "42");
      ("http://localhost:48081/api/v1/device", "[1,2,3]") ].

(** Both counters answer zero, nothing else answers. *)
Definition zero_net : string -> exn + option string :=
  Runtime.responses
    [ ("http://localhost:48080/api/v1/event/count", "0");
      ("http://localhost:48080/api/v1/reading/count", "0") ].

(** Both counters of the host [event-gw] answer. *)
Definition event_host_net : string -> exn + option string :=
  Runtime.responses
    [ ("http://event-gw:48080/api/v1/event/count", "5");
      ("http://event-gw:48080/api/v1/reading/count", "7") ].

Definition mirror_host_net : string -> exn + option string :=
  Runtime.responses
    [ ("http://event-reading-gw:48080/api/v1/event/count", "42");
      ("http://event-reading-gw:48080/api/v1/reading/count", "7") ].

(** The runtime metrics of the scenario, behind the port of
    [core_metadata]. *)
Definition memory_net : string -> exn + option string :=
  Runtime.responses
    [ ("http://localhost:48081/api/v1/metrics",
       Runtime.dq
         "{'Memory':{'Alloc':100,'Mallocs':5,'Frees':2,'LiveObjects':3}}") ].

(** A URL with none of the default ports, and a body that is not JSON. *)
Definition stray_url : string := "http://localhost:9999/api/v1/".

Definition stray_net : string -> exn + option string :=
  Runtime.responses [ ("http://localhost:9999/api/v1/metrics", "not-json") ].

(** A device endpoint that answers a JSON object. *)
Definition object_net : string -> exn + option string :=
  Runtime.responses
    [ ("http://localhost:48081/api/v1/device", Runtime.dq "{'a':1,'b':2}") ].

(** The threads in the order of the method table. *)
Definition in_order : list nat := [0; 1; 2; 3; 4; 5; 6]%nat.

(** ** The chart definitions of the module *)

(** One entry of a chart's [lines]: the dimension id, the name shown
    ([None] to show the id) and the algorithm. *)
Record dimension : Type := Dimension {
  dim_id : string;
  dim_name : option string;
  dim_algorithm : string
}.

Record chart : Type := Chart {
  options : list (option string);
  lines : list dimension
}.

Definition ORDER : list string :=
  [ "events_throughput"; "events_count"; "devices_number"; "memory_alloc";
    "memory_malloc"; "memory_frees"; "memory_liveObjects" ].

Definition CHARTS : gmap string chart :=
  list_to_map
    [ ("events_throughput",
       Chart
         [ None; Some "Events Throughput"; Some "events/s"; Some "events";
           Some "edgex.events_readings_incr"; Some "line" ]
         [ Dimension "events" None "incremental";
           Dimension "readings" None "incremental" ]);
      ("events_count",
       Chart
         [ None; Some "Absolute Count"; Some "events"; Some "events";
           Some "edgex.events_readings_abs"; Some "line" ]
         [ Dimension "readings" None "absolute";
           Dimension "events" None "absolute" ]);
      ("devices_number",
       Chart
         [ None; Some "devices count"; Some "devices"; Some "devices";
           Some "edgex.devices_number"; Some "line" ]
         [ Dimension "registered_devices" None "absolute" ]);
      ("memory_alloc",
       Chart
         [ None; Some "Alloc"; Some "bytes"; Some "memory";
           Some "edgex.memory_alloc"; Some "line" ]
         [ Dimension "core_data_alloc" (Some "core_data") "absolute";
           Dimension "core_metadata_alloc" (Some "core_metadata") "absolute";
           Dimension "core_command_alloc" (Some "core_command") "absolute";
           Dimension "support_logging_alloc" (Some "support_logging")
             "absolute" ]);
      ("memory_malloc",
       Chart
         [ None; Some "Mallocs"; Some "heap objects"; Some "memory";
           Some "edgex.memory_malloc"; Some "line" ]
         [ Dimension "core_data_malloc" (Some "core_data") "incremental";
           Dimension "core_metadata_malloc" (Some "core_metadata")
             "incremental";
           Dimension "core_command_malloc" (Some "core_command") "incremental";
           Dimension "support_logging_malloc" (Some "support_logging")
             "incremental" ]);
      ("memory_frees",
       Chart
         [ None; Some "Frees"; Some "heap objects"; Some "memory";
           Some "edgex.memory_frees"; Some "line" ]
         [ Dimension "core_data_frees" (Some "core_data") "absolute";
           Dimension "core_metadata_frees" (Some "core_metadata") "absolute";
           Dimension "core_command_frees" (Some "core_command") "absolute";
           Dimension "support_logging_frees" (Some "support_logging")
             "absolute" ]);
      ("memory_liveObjects",
       Chart
         [ None; Some "LiveObjects"; Some "heap objects"; Some "memory";
           Some "edgex.memory_liveObjects"; Some "line" ]
         [ Dimension "core_data_live_objects" (Some "core_data") "absolute";
           Dimension "core_metadata_live_objects" (Some "core_metadata")
             "absolute";
           Dimension "core_command_live_objects" (Some "core_command")
             "absolute";
           Dimension "support_logging_live_objects" (Some "support_logging")
             "absolute" ]) ].

(** The dimension ids of the charts that [self.order] lists and
    [self.definitions] defines. *)
Definition charted : gset string :=
  list_to_set
    (name ← ORDER;
     match CHARTS !! name with
     | Some c => dim_id <$> lines c
     | None => []
     end).

(** ** More vocabulary *)

(** The option of the job that enables the sources of a kind. *)
Definition enabled (configuration : job_config) (kind : source_kind) : bool :=
  match kind with
  | event_count | reading_count => get (events_per_second configuration) true
  | device_list => get (number_of_devices configuration) true
  | runtime_metrics => get (metrics configuration) true
  end.

(** The URL that [init_urls] builds for a service. *)
Definition service_url (self : Service) (s : service) : string :=
  match s with
  | core_data => url_core_data self
  | core_metadata => url_core_metadata self
  | core_command => url_core_command self
  | support_logging => url_support_logging self
  end.

(** [c not in s]. *)
Fixpoint lacks (c : ascii) (s : string) : bool :=
  match s with
  | EmptyString => true
  | String x s' => negb (Ascii.eqb c x) && lacks c s'
  end.


(** ** More inputs of the examples *)

(** A job that switches the runtime metrics off. *)
Definition metrics_off_config : job_config :=
  JobConfig None None None None None None None None (Some false).

(** A job that switches every capability off. *)
Definition all_off_config : job_config :=
  JobConfig None None None None None None (Some false) (Some false)
    (Some false).

(** A job whose [core_metadata] port contains its [core_data] port. *)
Definition nested_ports_config : job_config :=
  JobConfig None None None (Some "80") (Some "8080") None None None None.

(** The event count and the runtime metrics of [core_metadata] answer. *)
Definition busy_net : string -> exn + option string :=
  Runtime.responses
    [ ("http://localhost:48080/api/v1/event/count", "42");
      ("http://localhost:48081/api/v1/metrics",
       Runtime.dq
         "{'Memory':{'Alloc':100,'Mallocs':5,'Frees':2,'LiveObjects':3}}") ].

(** The runtime metrics of [core_command], without [LiveObjects]. *)
Definition command_net : string -> exn + option string :=
  Runtime.responses
    [ ("http://localhost:48082/api/v1/metrics",
       Runtime.dq "{'Memory':{'Alloc':100,'Mallocs':5,'Frees':2}}") ].

(** The host [event-gw]: both counters and the runtime metrics of
    [core_metadata] answer, the device list is not JSON, nothing else
    answers. *)
Definition broken_device_net : string -> exn + option string :=
  Runtime.responses
    [ ("http://event-gw:48080/api/v1/event/count", "5");
      ("http://event-gw:48080/api/v1/reading/count", "7");
      ("http://event-gw:48081/api/v1/device", "not-json");
      ("http://event-gw:48081/api/v1/metrics",
       Runtime.dq
         "{'Memory':{'Alloc':100,'Mallocs':5,'Frees':2,'LiveObjects':3}}") ].

(** ** Facts about the monad *)



Lemma runs_as_put frag : runs_as (queue_put frag) (inr frag).
Proof. intros w. reflexivity. Qed.

Lemma runs_as_raise {A} (e : exn) (k : A -> M unit) :
  runs_as (bind (lift (inl e)) k) (inl e).
Proof. intros w. reflexivity. Qed.

Lemma runs_as_bind {A} (a : A) (k : A -> M unit) plan :
  runs_as (k a) plan -> runs_as (bind (lift (inr a)) k) plan.
Proof. intros H w. exact (H w). Qed.

Lemma survive_any method self url plan :
  runs_as (method self url) plan ->
  unit_runs (get_survive_any method self url) url plan.
Proof.
  intros H w. unfold get_survive_any, try_except. rewrite (H w).
  destruct plan as [e | frag]; cbn; [reflexivity | by rewrite app_nil_r].
Qed.

Lemma unit_runs_produced target url plan :
  unit_runs target url plan -> produced target = [plan_fragment plan].
Proof. intros H. unfold produced. by rewrite (H (World [] [])). Qed.

Lemma unit_runs_reported target url plan :
  unit_runs target url plan -> reported target = plan_errors url plan.
Proof. intros H. unfold reported. by rewrite (H (World [] [])). Qed.

Lemma plans_put frag (Φ : exn + fragment -> Prop) :
  Φ (inr frag) -> plans (queue_put frag) Φ.
Proof. intros H. exists (inr frag). split; [apply runs_as_put | exact H]. Qed.

Lemma plans_bind {A} (r : exn + A) (k : A -> M unit)
    (Φ : exn + fragment -> Prop) :
  match r with
  | inl e => Φ (inl e)
  | inr a => plans (k a) Φ
  end ->
  plans (bind (lift r) k) Φ.
Proof.
  destruct r as [e | a].
  - intros H. exists (inl e). split; [apply runs_as_raise | exact H].
  - intros (plan & Hrun & H). exists plan. split; [by apply runs_as_bind | exact H].
Qed.

Lemma plans_port self name (k : string -> M unit)
    (Φ : exn + fragment -> Prop) :
  match edgex_ports self !! name with
  | Some p => plans (k p) Φ
  | None => Φ (inl (KeyError name))
  end ->
  plans (bind (port self name) k) Φ.
Proof.
  unfold port. destruct (edgex_ports self !! name) as [p |].
  - intros (plan & Hrun & H). exists plan. split; [exact Hrun | exact H].
  - intros H. exists (inl (KeyError name)). split; [intros w; reflexivity | exact H].
Qed.

Lemma plans_memory parsed field (k : json -> M unit)
    (Φ : exn + fragment -> Prop) :
  match py_getitem parsed "Memory" with
  | inl e => Φ (inl e)
  | inr m =>
      match py_getitem m field with
      | inl e => Φ (inl e)
      | inr v => plans (k v) Φ
      end
  end ->
  plans (bind (memory parsed field) k) Φ.
Proof.
  unfold memory.
  destruct (py_getitem parsed "Memory") as [e | m] eqn:Hm.
  - intros H. exists (inl e). split; [| exact H].
    intros w. reflexivity.
  - destruct (py_getitem m field) as [e | v] eqn:Hv.
    + intros H. exists (inl e). split; [| exact H].
      intros w. cbv [bind lift]. by rewrite Hv.
    + intros (plan & Hrun & H). exists plan. split; [| exact H].
      intros w. cbv [bind lift]. rewrite Hv. apply Hrun.
Qed.

Lemma plans_unit_runs method self url (Φ : exn + fragment -> Prop) :
  plans (method self url) Φ ->
  exists plan, unit_runs (get_survive_any method self url) url plan /\ Φ plan.
Proof.
  intros (plan & Hrun & H). exists plan. split; [by apply survive_any | exact H].
Qed.

Section Facts.

Variable _get_raw_data : string -> exn + option string.
Variable int : string -> exn + Z.
Variable json_loads : string -> exn + json.

Local Abbreviation the_routine := (routine _get_raw_data int json_loads).
Local Abbreviation the_parse_failed := (parse_failed int json_loads).

Ltac attribute :=
  unfold attribution, services, port_in; cbn [List.find service_name];
  repeat match goal with
         | E : edgex_ports _ !! _ = _ |- _ => rewrite E
         | E : str_in _ _ = _ |- _ => rewrite E
         end.

Ltac attribute_in H :=
  unfold attribution, services, port_in in H; cbn [List.find service_name] in H;
  repeat match goal with
         | E : edgex_ports _ !! _ = _ |- _ => rewrite E in H
         | E : str_in _ _ = _ |- _ => rewrite E in H
         end.

(** A leaf where a member of [Memory] is missing. *)
Ltac missing_key s field :=
  left; cbn [parse_failed]; right;
  lazymatch goal with
  | Ej : json_loads _ = inr ?parsed, Ev : _ = inl ?e |- _ =>
      exists parsed, s, field, e; split_and!;
      [ exact Ej
      | attribute; reflexivity
      | cbn [required]; set_solver
      | unfold memory_value;
        repeat match goal with E : py_getitem _ _ = _ |- _ => rewrite E end;
        reflexivity ]
  end.

(** A leaf where the body reaches its [queue.put]. *)
Ltac all_present s :=
  apply plans_put; split;
  [ cbn [source_fields]; attribute;
    rewrite !dom_insert_L, dom_empty_L;
    unfold metric_fields; cbn [service_name String.append]; set_solver
  | let H := fresh in
    cbn [parse_failed];
    intros [[e' H] | (parsed' & s' & field & e' & Hj & Hs & Hf & Hv)];
    [ congruence | ];
    attribute_in Hs; simplify_eq;
    lazymatch goal with
    | Ej : json_loads ?r = inr _, Hj' : json_loads ?r = inr _ |- _ =>
        rewrite Ej in Hj'; injection Hj' as <-
    end;
    unfold memory_value in Hv;
    cbn [required] in Hf; set_unfold in Hf;
    lazymatch goal with
    | Em : py_getitem _ "Memory" = inr _ |- _ => rewrite Em in Hv
    end;
    destruct_or?; subst; congruence ].

Ltac member s field :=
  apply plans_memory;
  lazymatch goal with
  | Em : py_getitem ?parsed "Memory" = inr ?m |- _ =>
      rewrite Em;
      let E := fresh "Ev" in
      destruct (py_getitem m field) eqn:E; [by missing_key s field |]
  end.

Lemma routine_plan kind self url :
  exists plan,
    unit_runs (the_routine kind self url) url plan /\
    plan_of_fetch _get_raw_data int json_loads kind self url plan.
Proof.
  unfold plan_of_fetch.
  destruct kind; cbn [routine endpoint source_fields];
    apply plans_unit_runs; apply plans_bind.
  - destruct (_get_raw_data _) as [e | [[| c raw] |]];
      [done | by apply plans_put | | by apply plans_put].
    apply plans_bind. destruct (int _) eqn:E; [left; cbn [parse_failed]; by eexists |].
    apply plans_put. split.
    + by rewrite dom_insert_L, dom_empty_L, union_empty_r_L.
    + cbn [parse_failed]. intros [e He]. congruence.
  - destruct (_get_raw_data _) as [e | [[| c raw] |]];
      [done | by apply plans_put | | by apply plans_put].
    apply plans_bind. destruct (int _) eqn:E; [left; cbn [parse_failed]; by eexists |].
    apply plans_put. split.
    + destruct (str_in "event" url).
      * rewrite !dom_insert_L, dom_empty_L. set_solver.
      * by rewrite dom_insert_L, dom_empty_L, union_empty_r_L.
    + cbn [parse_failed]. intros [e He]. congruence.
  - destruct (_get_raw_data _) as [e | [[| c raw] |]];
      [done | by apply plans_put | | by apply plans_put].
    apply plans_bind.
    destruct (json_loads _) as [e | parsed] eqn:Ej; [left; cbn [parse_failed]; left; by eexists |].
    apply plans_bind.
    destruct (py_len _) eqn:El; [left; cbn [parse_failed]; right; by eexists _, _ |].
    apply plans_put. split.
    + by rewrite dom_insert_L, dom_empty_L, union_empty_r_L.
    + cbn [parse_failed]. intros [[e He] | (parsed' & e & Hj & He)]; congruence.
  - destruct (_get_raw_data _) as [e | [[| c raw] |]];
      [done | by apply plans_put | | by apply plans_put].
    apply plans_bind.
    destruct (json_loads _) as [e | parsed] eqn:Ej; [left; cbn [parse_failed]; left; by eexists |].
    assert (Hport : forall s, edgex_ports self !! service_name s = None ->
                      the_parse_failed runtime_metrics self url (String c raw) \/
                      ~ ports_configured self).
    { intros s Hs. right. intros H. destruct (H s) as [p Hp]. congruence. }
    apply plans_port.
    destruct (edgex_ports self !! "core_data") as [pd |] eqn:Epd;
      [| exact (Hport core_data Epd)].
    destruct (str_in pd url) eqn:Esd.
    { apply plans_memory.
      destruct (py_getitem parsed "Memory") as [e | m] eqn:Em;
        [by missing_key core_data "Alloc" |].
      destruct (py_getitem m "Alloc") eqn:Ea; [by missing_key core_data "Alloc" |].
      member core_data "Mallocs". member core_data "Frees".
      member core_data "LiveObjects".
      all_present core_data. }
    apply plans_port.
    destruct (edgex_ports self !! "core_metadata") as [pm |] eqn:Epm;
      [| exact (Hport core_metadata Epm)].
    destruct (str_in pm url) eqn:Esm.
    { apply plans_memory.
      destruct (py_getitem parsed "Memory") as [e | m] eqn:Em;
        [by missing_key core_metadata "Alloc" |].
      destruct (py_getitem m "Alloc") eqn:Ea;
        [by missing_key core_metadata "Alloc" |].
      member core_metadata "Mallocs". member core_metadata "Frees".
      member core_metadata "LiveObjects".
      all_present core_metadata. }
    apply plans_port.
    destruct (edgex_ports self !! "core_command") as [pc |] eqn:Epc;
      [| exact (Hport core_command Epc)].
    destruct (str_in pc url) eqn:Esc.
    { apply plans_memory.
      destruct (py_getitem parsed "Memory") as [e | m] eqn:Em;
        [by missing_key core_command "Alloc" |].
      destruct (py_getitem m "Alloc") eqn:Ea;
        [by missing_key core_command "Alloc" |].
      member core_command "Mallocs". member core_command "Frees".
      all_present core_command. }
    apply plans_port.
    destruct (edgex_ports self !! "support_logging") as [pl |] eqn:Epl;
      [| exact (Hport support_logging Epl)].
    destruct (str_in pl url) eqn:Esl.
    { apply plans_memory.
      destruct (py_getitem parsed "Memory") as [e | m] eqn:Em;
        [by missing_key support_logging "Alloc" |].
      destruct (py_getitem m "Alloc") eqn:Ea;
        [by missing_key support_logging "Alloc" |].
      member support_logging "Mallocs". member support_logging "Frees".
      member support_logging "LiveObjects".
      all_present support_logging. }
    apply plans_put. split.
    + cbn [source_fields]. attribute. by rewrite dom_empty_L.
    + cbn [parse_failed].
      intros [[e' H] | (parsed' & s' & field & e' & Hj & Hs & Hf & Hv)];
        [congruence |].
      attribute_in Hs. discriminate.
Qed.

End Facts.

(** ** Facts about the merge *)

Lemma merged_snoc q frag : merged (q ++ [frag]) = frag ∪ merged q.
Proof. unfold merged. by rewrite foldl_app. Qed.

Lemma merged_lookup_Some q k v :
  merged q !! k = Some v -> exists frag, frag ∈ q /\ frag !! k = Some v.
Proof.
  induction q as [| frag q IH] using rev_ind.
  - unfold merged. cbn. by rewrite lookup_empty.
  - rewrite merged_snoc, lookup_union_Some_raw. intros [H | [_ H]].
    + exists frag. split; [| exact H].
      apply elem_of_app. right. by apply list_elem_of_singleton.
    + destruct (IH H) as (g & Hg & Hk). exists g. split; [| exact Hk].
      apply elem_of_app. by left.
Qed.

Lemma merged_lookup_None q k :
  merged q !! k = None <-> Forall (fun frag => frag !! k = None) q.
Proof.
  induction q as [| frag q IH] using rev_ind.
  - unfold merged. cbn. rewrite lookup_empty. by split.
  - rewrite merged_snoc, lookup_union_None, Forall_app, Forall_singleton, IH.
    tauto.
Qed.

(** [dict.update]: the fragment taken last decides a key. *)
Lemma merged_last q1 frag q2 k v :
  frag !! k = Some v ->
  Forall (fun g => g !! k = None) q2 ->
  merged (q1 ++ frag :: q2) !! k = Some v.
Proof.
  intros Hk. induction q2 as [| g q2 IH] using rev_ind; intros Hq2.
  - rewrite merged_snoc. by apply lookup_union_Some_l.
  - apply Forall_app in Hq2 as [Hq2 Hg]. rewrite Forall_singleton in Hg.
    replace (q1 ++ frag :: q2 ++ [g]) with ((q1 ++ frag :: q2) ++ [g])
      by (by rewrite <- app_assoc).
    rewrite merged_snoc, lookup_union_r by exact Hg. by apply IH.
Qed.

Lemma merged_empty q : merged q = ∅ <-> Forall (fun frag => frag = ∅) q.
Proof.
  rewrite map_empty. split.
  - intros H. apply Forall_forall. intros frag Hin. apply map_empty. intros k.
    specialize (H k). rewrite merged_lookup_None, Forall_forall in H.
    by apply H.
  - intros H k. apply merged_lookup_None.
    eapply Forall_impl; [exact H |]. intros frag ->. apply lookup_empty.
Qed.

Lemma merged_dom q k :
  k ∈ dom (merged q) <-> exists frag, frag ∈ q /\ k ∈ dom frag.
Proof.
  rewrite elem_of_dom. split.
  - intros [v Hv]. apply merged_lookup_Some in Hv as (frag & Hin & Hk).
    exists frag. split; [exact Hin | apply elem_of_dom; eauto].
  - intros (frag & Hin & Hk).
    destruct (merged q !! k) eqn:E; [eauto |].
    rewrite merged_lookup_None, Forall_forall in E.
    apply elem_of_dom in Hk as [v Hv]. rewrite (E frag Hin) in Hv. done.
Qed.

(** With keys apart the merge holds every fragment as it was. *)
Lemma merged_keys_apart q frag :
  keys_apart q -> frag ∈ q -> frag ⊆ merged q.
Proof.
  intros Hq [i Hi]%list_elem_of_lookup.
  apply map_subseteq_spec. intros k v Hk.
  destruct (merged q !! k) as [v' |] eqn:E.
  - apply merged_lookup_Some in E as (g & [j Hj]%list_elem_of_lookup & Hg).
    destruct (decide (i = j)) as [-> | Hne]; [congruence |].
    specialize (Hq i j frag g Hne Hi Hj).
    exfalso. apply (Hq k); apply elem_of_dom; eauto.
  - rewrite merged_lookup_None, Forall_forall in E.
    rewrite (E frag) in Hk; [done |]. apply list_elem_of_lookup. eauto.
Qed.

(** A key keeps its value in the merge when every fragment that holds
    it holds the same value. *)
Lemma merged_agreed q frag k v :
  frag ∈ q -> frag !! k = Some v ->
  (forall g v', g ∈ q -> g !! k = Some v' -> v' = v) ->
  merged q !! k = Some v.
Proof.
  intros Hin Hk Hsame. destruct (merged q !! k) as [v' |] eqn:E.
  - apply merged_lookup_Some in E as (g & Hg & Hv').
    by rewrite (Hsame g v' Hg Hv').
  - rewrite merged_lookup_None, Forall_forall in E.
    rewrite (E frag Hin) in Hk. done.
Qed.

Lemma keys_apart_perm q q' : q ≡ₚ q' -> keys_apart q -> keys_apart q'.
Proof.
  intros Hperm Hq i j fi fj Hne Hi Hj. symmetry in Hperm.
  apply Permutation_inj in Hperm as (_ & f & Hf & Hlook).
  rewrite Hlook in Hi, Hj.
  apply (Hq (f i) (f j)); [| exact Hi | exact Hj].
  intros Heq. by apply Hf in Heq.
Qed.

(** ** Facts about the two loops *)

Lemma start_threads_filter (ms : list METHODS.t) :
  start_threads ms =
  (fun m => METHODS.get_data m (METHODS.url m)) <$>
    filter (fun m => METHODS.run m = true) ms.
Proof.
  unfold start_threads.
  enough (forall threads,
    foldl
      (fun threads method =>
         if negb (METHODS.run method) then threads
         else threads ++ [METHODS.get_data method (METHODS.url method)])
      threads ms =
    threads ++
      ((fun m => METHODS.get_data m (METHODS.url m)) <$>
        filter (fun m => METHODS.run m = true) ms)) as H by apply (H []).
  induction ms as [| m ms IH]; intros threads.
  - cbn. by rewrite app_nil_r.
  - cbn [foldl]. rewrite IH, filter_cons.
    destruct (METHODS.run m) eqn:E; cbn [negb].
    + rewrite decide_True by done. rewrite fmap_cons, <- app_assoc. done.
    + rewrite decide_False by done. done.
Qed.

Lemma reporting_produced target :
  reporting target -> exists frag, produced target = [frag].
Proof. intros (url & plan & H). eexists. by eapply unit_runs_produced. Qed.

Lemma reporting_queue target w :
  reporting target -> queue (snd (target w)) = queue w ++ produced target.
Proof.
  intros (url & plan & H). rewrite (unit_runs_produced _ _ _ H).
  by rewrite (H w).
Qed.

Lemma run_threads_queue threads schedule w :
  Forall reporting threads ->
  queue (run_threads threads schedule w) = queue w ++ schedule ≫= turn threads.
Proof.
  intros Hthreads. unfold run_threads. revert w.
  induction schedule as [| i schedule IH]; intros w.
  - cbn. by rewrite app_nil_r.
  - cbn [foldl]. rewrite IH, bind_cons, app_assoc. f_equal.
    unfold turn. destruct (threads !! i) as [target |] eqn:E.
    + apply reporting_queue. rewrite Forall_forall in Hthreads.
      apply Hthreads. apply list_elem_of_lookup. eauto.
    + by rewrite app_nil_r.
Qed.

Lemma turns_in_order threads :
  seq 0 (length threads) ≫= turn threads = fragments threads.
Proof.
  unfold fragments.
  induction threads as [| target threads IH] using rev_ind; [done |].
  rewrite length_app, Nat.add_1_r, seq_S, !bind_app, !bind_singleton.
  cbn [Nat.add]. f_equal.
  - rewrite <- IH. apply Forall_bind_ext, Forall_forall.
    intros i Hi%elem_of_seq. unfold turn. by rewrite lookup_app_l by lia.
  - unfold turn. by rewrite list_lookup_middle.
Qed.

Lemma join_all_merged threads q result :
  length q = length threads ->
  join_all threads q result =
  Some (foldl (fun result frag => frag ∪ result) result q).
Proof.
  revert q result. induction threads as [| target threads IH];
    intros [| frag q] result Hlen; try discriminate.
  - reflexivity.
  - cbn. apply IH. by injection Hlen.
Qed.

Lemma fragments_length threads :
  Forall reporting threads -> length (fragments threads) = length threads.
Proof.
  unfold fragments. induction 1 as [| target threads Htarget _ IH]; [done |].
  rewrite bind_cons, length_app, IH.
  by destruct (reporting_produced _ Htarget) as [frag ->].
Qed.

(** The fragment of thread [j] is the [j]-th fragment of the cycle. *)
Lemma fragments_lookup threads j other :
  Forall reporting threads ->
  threads !! j = Some other ->
  exists g, produced other = [g] /\ fragments threads !! j = Some g.
Proof.
  unfold fragments. intros Hthreads. revert j.
  induction Hthreads as [| target threads Htarget _ IH]; intros j Hj.
  - by rewrite lookup_nil in Hj.
  - rewrite bind_cons. destruct (reporting_produced _ Htarget) as [frag Hfrag].
    rewrite Hfrag. destruct j as [| j].
    + injection Hj as <-. by exists frag.
    + destruct (IH j Hj) as (g & Hg & Hlook). by exists g.
Qed.

Lemma alone_unshared threads i k :
  Forall reporting threads ->
  alone (fragments threads) i k = true ->
  unshared threads i k.
Proof.
  intros Hthreads Halone j other Hne Hj.
  destruct (fragments_lookup threads j other Hthreads Hj) as (g & -> & Hg).
  apply Forall_singleton.
  unfold alone in Halone. rewrite forallb_forall in Halone.
  assert (g ∈ delete i (fragments threads)) as Hin.
  { apply list_elem_of_lookup. destruct (decide (j < i)%nat) as [Hlt | Hge].
    - exists j. by rewrite list_lookup_delete_lt.
    - destruct j as [| j]; [lia |]. exists j.
      rewrite list_lookup_delete_ge by lia. exact Hg. }
  apply list_elem_of_In, Halone in Hin.
  by apply bool_decide_eq_true in Hin.
Qed.

(** Under a fair schedule the second loop finds, one after the other,
    a permutation of the cycle's fragments, and the call returns. *)
Lemma cycle_returns threads schedule :
  Forall reporting threads ->
  fair threads schedule ->
  dequeued threads schedule ≡ₚ fragments threads /\
  join_all threads (dequeued threads schedule) ∅ =
  Some (merged (dequeued threads schedule)).
Proof.
  intros Hthreads Hfair.
  assert (dequeued threads schedule ≡ₚ fragments threads) as Hperm.
  { unfold dequeued. rewrite run_threads_queue by exact Hthreads. cbn.
    rewrite <- turns_in_order. by apply bind_Permutation. }
  split; [exact Hperm |].
  apply join_all_merged.
  by rewrite (Permutation_length Hperm), fragments_length.
Qed.


(** ** The interleaved cycle and the schedules *)

Lemma turn_length threads i :
  Forall reporting threads -> (i < length threads)%nat ->
  length (turn threads i) = 1%nat.
Proof.
  intros Hthreads Hi. unfold turn.
  destruct (lookup_lt_is_Some_2 _ _ Hi) as [target Htarget]. rewrite Htarget.
  rewrite Forall_forall in Hthreads.
  destruct (reporting_produced target) as [frag ->]; [| done].
  apply Hthreads, list_elem_of_lookup. eauto.
Qed.

Lemma turns_length threads schedule :
  Forall reporting threads ->
  (forall i, i ∈ schedule -> (i < length threads)%nat) ->
  length (schedule ≫= turn threads) = length schedule.
Proof.
  intros Hthreads. induction schedule as [| i schedule IH]; intros Hbound.
  - done.
  - rewrite bind_cons, length_app, turn_length, IH; [done | | done |].
    + intros j Hj. apply Hbound. by apply list_elem_of_further.
    + apply Hbound. apply list_elem_of_here.
Qed.

Lemma started_inv threads : reachable_inv threads started.
Proof.
  split; cbn.
  - constructor.
  - intros i Hi. by apply elem_of_nil in Hi.
  - intros i Hi. lia.
  - by exists [].
Qed.

Lemma step_inv threads st st' :
  Forall reporting threads ->
  step threads st st' -> reachable_inv threads st -> reachable_inv threads st'.
Proof.
  intros Hthreads Hstep [Hnodup Hbound Hjoined (taken & Hlen & Htaken & Hres)].
  destruct Hstep as [st i target Hi Hfresh | st frag q Hlt Hfin Hq];
    split; cbn.
  - apply NoDup_app. split_and!; [done | | apply NoDup_singleton].
    intros j Hj ->%list_elem_of_singleton. done.
  - intros j [Hj | ->%list_elem_of_singleton]%elem_of_app; [by apply Hbound |].
    by eapply lookup_lt_Some.
  - intros j Hj. apply elem_of_app. left. by apply Hjoined.
  - exists taken. split_and!; [done | | done].
    rewrite bind_app, bind_singleton, <- Htaken, <- app_assoc. f_equal.
    unfold turn. rewrite Hi. apply reporting_queue.
    rewrite Forall_forall in Hthreads.
    apply Hthreads, list_elem_of_lookup. eauto.
  - done.
  - done.
  - intros i Hi. destruct (decide (i = joined st)) as [-> | Hne]; [done |].
    apply Hjoined. lia.
  - exists (taken ++ [frag]). split_and!.
    + rewrite length_app, Hlen. cbn. lia.
    + rewrite <- Htaken, Hq, <- app_assoc. done.
    + by rewrite merged_snoc, Hres.
Qed.

Lemma reachable threads st :
  Forall reporting threads ->
  rtc (step threads) started st -> reachable_inv threads st.
Proof.
  intros Hthreads Hrun.
  eapply (rtc_ind_r (reachable_inv threads)); [| | exact Hrun].
  - apply started_inv.
  - intros y z _ Hstep IH. by eapply step_inv.
Qed.

Lemma finished_length threads st :
  reachable_inv threads st -> (length (finished st) <= length threads)%nat.
Proof.
  intros [Hnodup Hbound _ _].
  rewrite <- (length_seq (length threads) 0).
  apply submseteq_length, NoDup_submseteq; [done |].
  intros i Hi. apply elem_of_seq. specialize (Hbound i Hi). lia.
Qed.

(** Every way the interleaved cycle returns is the way of a fair
    schedule. *)
Lemma returns_by_schedule threads r :
  Forall reporting threads ->
  returns threads r ->
  exists schedule,
    fair threads schedule /\
    r = or_None (merged (dequeued threads schedule)).
Proof.
  intros Hthreads (st & Hrun & Hend & ->).
  pose proof (reachable threads st Hthreads Hrun) as Hinv.
  pose proof (finished_length threads st Hinv) as Hle.
  destruct Hinv as [Hnodup Hbound _ (taken & Hlen & Htaken & Hres)].
  assert (length (taken ++ queue (shared st)) = length (finished st)) as Hcount
    by (by rewrite Htaken, turns_length).
  rewrite length_app, Hlen, Hend in Hcount.
  assert (queue (shared st) = []) as Hempty
    by (apply length_zero_iff_nil; lia).
  exists (finished st). split.
  - unfold fair. apply submseteq_length_Permutation.
    + apply NoDup_submseteq; [done |].
      intros i Hi. apply elem_of_seq. specialize (Hbound i Hi). lia.
    + rewrite length_seq. lia.
  - unfold dequeued. rewrite run_threads_queue by done. cbn.
    rewrite <- Htaken, Hempty, app_nil_r. by rewrite Hres.
Qed.


Lemma threads_run threads schedule :
  NoDup schedule ->
  (forall i, i ∈ schedule -> (i < length threads)%nat) ->
  rtc (step threads) started
    (Cycle schedule (run_threads threads schedule (World [] [])) 0 ∅).
Proof.
  induction schedule as [| i schedule IH] using rev_ind; intros Hnodup Hbound.
  - apply rtc_refl.
  - apply NoDup_app in Hnodup as (Hnodup & Hfresh & _).
    eapply rtc_r.
    + apply IH; [done |]. intros j Hj. apply Hbound, elem_of_app. by left.
    + assert (i < length threads)%nat as Hi.
      { apply Hbound, elem_of_app. right. by apply list_elem_of_singleton. }
      destruct (lookup_lt_is_Some_2 _ _ Hi) as [target Htarget].
      unfold run_threads at 2. rewrite foldl_app. cbn [foldl]. rewrite Htarget.
      fold (run_threads threads schedule (World [] [])).
      apply (step_thread threads (Cycle schedule _ 0 ∅) i target Htarget).
      cbn. intros Hin. apply (Hfresh i Hin). by apply list_elem_of_singleton.
Qed.

Lemma loop_runs threads schedule q errs j res :
  schedule ≡ₚ seq 0 (length threads) ->
  (j + length q = length threads)%nat ->
  rtc (step threads) (Cycle schedule (World q errs) j res)
    (Cycle schedule (World [] errs) (length threads)
       (foldl (fun result frag => frag ∪ result) res q)).
Proof.
  intros Hperm. revert j res. induction q as [| frag q IH]; intros j res Hlen.
  - cbn in *. replace j with (length threads) by lia. apply rtc_refl.
  - cbn [length] in Hlen. eapply rtc_l.
    + apply (step_loop threads (Cycle schedule (World (frag :: q) errs) j res)
               frag q); cbn; [lia | | done].
      rewrite Hperm. apply elem_of_seq. lia.
    + cbn. apply IH. lia.
Qed.

(** Every fair schedule is a way the interleaved cycle returns. *)
Lemma schedule_returns threads schedule :
  Forall reporting threads ->
  fair threads schedule ->
  returns threads (or_None (merged (dequeued threads schedule))).
Proof.
  intros Hthreads Hfair.
  assert (NoDup schedule) as Hnodup by (rewrite Hfair; apply NoDup_seq).
  assert (forall i, i ∈ schedule -> (i < length threads)%nat) as Hbound.
  { intros i Hi. rewrite Hfair in Hi. apply elem_of_seq in Hi. lia. }
  destruct (cycle_returns threads schedule Hthreads Hfair) as [Hperm _].
  pose proof (threads_run threads schedule Hnodup Hbound) as Hrun.
  unfold dequeued in *.
  destruct (run_threads threads schedule (World [] [])) as [q errs].
  cbn [queue] in *.
  eexists. split_and!.
  - etrans; [exact Hrun |]. apply (loop_runs threads schedule q errs 0 ∅ Hfair).
    by rewrite (Permutation_length Hperm), fragments_length.
  - reflexivity.
  - reflexivity.
Qed.

Lemma init_ports_configured configuration :
  ports_configured (__init__ configuration).
Proof. intros []; eexists; reflexivity. Qed.

Section Cycle.

Variable _get_raw_data : string -> exn + option string.
Variable int : string -> exn + Z.
Variable json_loads : string -> exn + json.

Local Abbreviation the_routine := (routine _get_raw_data int json_loads).
Local Abbreviation the_methods := (methods _get_raw_data int json_loads).
Local Abbreviation the_get_data := (_get_data _get_raw_data int json_loads).
Local Abbreviation the_parse_failed := (parse_failed int json_loads).

Lemma routine_reporting kind self url : reporting (the_routine kind self url).
Proof.
  destruct (routine_plan _get_raw_data int json_loads kind self url)
    as (plan & Hrun & _).
  by exists url, plan.
Qed.

Lemma methods_reporting self :
  Forall reporting (start_threads (the_methods self)).
Proof.
  rewrite start_threads_filter. apply Forall_fmap, Forall_forall.
  intros m [_ Hm]%list_elem_of_filter. revert m Hm. apply Forall_forall.
  repeat constructor; cbn.
  - exact (routine_reporting event_count self (url_core_data self)).
  - exact (routine_reporting reading_count self (url_core_data self)).
  - exact (routine_reporting device_list self (url_core_metadata self)).
  - exact (routine_reporting runtime_metrics self (url_core_metadata self)).
  - exact (routine_reporting runtime_metrics self (url_core_data self)).
  - exact (routine_reporting runtime_metrics self (url_core_command self)).
  - exact (routine_reporting runtime_metrics self (url_support_logging self)).
Qed.

Lemma get_data_returned self schedule :
  fair (start_threads (the_methods self)) schedule ->
  dequeued (start_threads (the_methods self)) schedule ≡ₚ
    fragments (start_threads (the_methods self)) /\
  the_get_data self schedule =
  Returned (or_None (merged (dequeued (start_threads (the_methods self)) schedule))).
Proof.
  intros Hfair.
  destruct (cycle_returns _ _ (methods_reporting self) Hfair) as [Hperm Hjoin].
  split; [exact Hperm |].
  unfold _get_data. fold (dequeued (start_threads (the_methods self)) schedule).
  by rewrite Hjoin.
Qed.

(** The interleaved cycle returns what [_get_data] returns under the
    fair schedules. *)
Lemma get_data_interleaved self r :
  returns (start_threads (the_methods self)) r <->
  exists schedule,
    fair (start_threads (the_methods self)) schedule /\
    the_get_data self schedule = Returned r.
Proof.
  pose proof (methods_reporting self) as Hthreads. split.
  - intros (schedule & Hfair & ->)%returns_by_schedule; [| done].
    exists schedule. split; [done |].
    by destruct (get_data_returned self schedule Hfair) as [_ ->].
  - intros (schedule & Hfair & Hret).
    destruct (get_data_returned self schedule Hfair) as [_ Hret'].
    rewrite Hret' in Hret. injection Hret as <-.
    by apply schedule_returns.
Qed.

Lemma or_None_None result : or_None result = None <-> result = ∅.
Proof.
  unfold or_None. case_bool_decide as H.
  - apply map_size_empty_iff in H. by split.
  - rewrite map_size_empty_iff in H. by split.
Qed.

Lemma or_None_Some result snapshot :
  or_None result = Some snapshot <-> result = snapshot /\ snapshot ≠ ∅.
Proof.
  unfold or_None. case_bool_decide as H; rewrite map_size_empty_iff in H.
  - split; [done | intros [-> ?]; done].
  - split; [intros [= ->]; done | intros [-> _]; done].
Qed.

(** C1. For every fair schedule [_get_data] returns, and it returns
    [None] exactly when every fragment produced in the cycle is empty.
    What it returns otherwise is a non-empty snapshot whose keys are
    those of the fragments.  When the fragments hold nothing but
    zeros, and hold a field at all, it returns a non-empty snapshot of
    zeros, not [None]. *)
Theorem no_data_iff_all_fragments_empty self schedule :
  fair (start_threads (the_methods self)) schedule ->
  let cycle := fragments (start_threads (the_methods self)) in
  (exists r, the_get_data self schedule = Returned r) /\
  (the_get_data self schedule = Returned None <->
   Forall (fun frag => frag = ∅) cycle) /\
  (forall snapshot,
      the_get_data self schedule = Returned (Some snapshot) ->
      snapshot ≠ ∅ /\
      forall k, k ∈ dom snapshot <-> exists frag, frag ∈ cycle /\ k ∈ dom frag) /\
  (forall frag k,
      frag ∈ cycle -> is_Some (frag !! k) ->
      (forall g j v, g ∈ cycle -> g !! j = Some v -> v = JInt 0) ->
      exists snapshot,
        the_get_data self schedule = Returned (Some snapshot) /\
        snapshot ≠ ∅ /\
        forall j v, snapshot !! j = Some v -> v = JInt 0).
Proof.
  intros Hfair cycle.
  destruct (get_data_returned self schedule Hfair) as [Hperm Hret].
  fold cycle in Hperm. rewrite Hret.
  set (q := dequeued _ _) in *.
  split_and!.
  - eauto.
  - split.
    + intros [= H%or_None_None]. rewrite <- Hperm. by apply merged_empty.
    + intros H. f_equal. apply or_None_None, merged_empty. by rewrite Hperm.
  - intros snapshot [= [<- Hne]%or_None_Some]. split; [exact Hne |].
    intros k. rewrite merged_dom. by setoid_rewrite Hperm.
  - intros frag k Hin Hk Hzero. exists (merged q).
    assert (merged q ≠ ∅) as Hne.
    { intros Hempty. apply merged_empty in Hempty.
      rewrite Forall_forall in Hempty. rewrite <- Hperm in Hin.
      rewrite (Hempty frag Hin), lookup_empty in Hk. by destruct Hk. }
    split_and!; [| exact Hne |].
    + f_equal. by apply or_None_Some.
    + intros j v (g & Hg & Hv)%merged_lookup_Some.
      rewrite Hperm in Hg. by eapply Hzero.
Qed.

(** C8. Each of the four routines, in whatever state and whatever the
    fetch and the decoders do, returns and leaves the queue with
    exactly one more fragment. *)
Theorem routine_enqueues_exactly_one kind self url w :
  fst (routine _get_raw_data int json_loads kind self url w) = inr tt /\
  exists frag,
    queue (snd (routine _get_raw_data int json_loads kind self url w)) =
    queue w ++ [frag].
Proof.
  destruct (routine_plan _get_raw_data int json_loads kind self url)
    as (plan & Hrun & _).
  rewrite (Hrun w). split; [reflexivity | by eexists].
Qed.

(** C2. The fragment a source contributes is all or nothing: empty
    after a failed fetch and after a body that does not parse, and
    with exactly the fields of the source otherwise. *)
Theorem fragment_all_or_nothing kind configuration url w :
  let self := __init__ configuration in
  let fetched := _get_raw_data (url +:+ endpoint kind) in
  exists frag,
    queue (snd (the_routine kind self url w)) = queue w ++ [frag] /\
    (fetch_failed fetched -> frag = ∅) /\
    (forall raw,
        fetched = inr (Some raw) ->
        the_parse_failed kind self url raw -> frag = ∅) /\
    (forall raw,
        fetched = inr (Some raw) -> raw ≠ EmptyString ->
        ~ the_parse_failed kind self url raw ->
        dom frag = source_fields kind self url) /\
    (dom frag = ∅ \/ dom frag = source_fields kind self url).
Proof.
  intros self fetched.
  destruct (routine_plan _get_raw_data int json_loads kind self url)
    as (plan & Hrun & Hplan).
  exists (plan_fragment plan). rewrite (Hrun w). split; [reflexivity |].
  unfold plan_of_fetch in Hplan. fold fetched in Hplan.
  pose proof (init_ports_configured configuration) as Hports.
  destruct fetched as [e | [[| c raw] |]]; subst; cbn [fetch_failed plan_fragment].
  - split_and!; [done | done | done | left; apply dom_empty_L].
  - split_and!; [done | done | | left; apply dom_empty_L].
    by intros ? [= <-].
  - destruct plan as [e | frag]; cbn [plan_fragment].
    + split_and!; [done | done | | left; apply dom_empty_L].
      intros ? [= <-] _ Hok. destruct Hplan as [Hfail | Hbad]; [| done].
      by destruct Hok.
    + destruct Hplan as [Hdom Hok]. split_and!; [done | | done | by right].
      intros ? [= <-] Hfail. by destruct Hok.
  - split_and!; [done | done | done | left; apply dom_empty_L].
Qed.

End Cycle.

(** ** Running a routine on a given payload *)

Lemma bind_lift_inr {A B} (r : exn + A) (a : A) (k : A -> M B) w :
  r = inr a -> bind (lift r) k w = k a w.
Proof. by intros ->. Qed.

Lemma bind_lift_inl {A B} (r : exn + A) (e : exn) (k : A -> M B) w :
  r = inl e -> bind (lift r) k w = (inl e, w).
Proof. by intros ->. Qed.

Lemma bind_port {B} self name p (k : string -> M B) w :
  edgex_ports self !! name = Some p -> bind (port self name) k w = k p w.
Proof. intros H. unfold port. by rewrite H. Qed.

Lemma bind_memory {B} parsed field v (k : json -> M B) w :
  memory_value parsed field = inr v -> bind (memory parsed field) k w = k v w.
Proof.
  unfold memory_value, memory, bind, lift.
  destruct (py_getitem parsed "Memory"); [done |]. by intros ->.
Qed.

Lemma memory_value_member members memory field v :
  members !! "Memory" = Some (JObj memory) ->
  memory !! field = Some v ->
  memory_value (JObj members) field = inr v.
Proof. intros Hm Hv. unfold memory_value. cbn. rewrite Hm. cbn. by rewrite Hv. Qed.

Lemma attribution_first self url s :
  port_in self url s = true ->
  (forall s', (rank s' < rank s)%nat -> port_in self url s' = false) ->
  attribution self url = Some s.
Proof.
  intros Hs Hfirst. unfold attribution, services.
  destruct s; cbn [List.find];
    rewrite ?(Hfirst core_data), ?(Hfirst core_metadata), ?(Hfirst core_command)
      by (cbn; lia);
    by rewrite Hs.
Qed.

Lemma attribution_Some self url s :
  attribution self url = Some s ->
  port_in self url s = true /\
  forall s', (rank s' < rank s)%nat -> port_in self url s' = false.
Proof.
  unfold attribution, services. cbn [List.find].
  destruct (port_in self url core_data) eqn:Ed;
    [| destruct (port_in self url core_metadata) eqn:Em;
       [| destruct (port_in self url core_command) eqn:Ec;
          [| destruct (port_in self url support_logging) eqn:El]]];
    intros [= <-]; (split; [done |]); intros [] Hr; cbn in Hr; (done || lia).
Qed.

Lemma attribution_None self url :
  attribution self url = None -> forall s, port_in self url s = false.
Proof.
  unfold attribution, services. cbn [List.find].
  destruct (port_in self url core_data) eqn:Ed; [done |].
  destruct (port_in self url core_metadata) eqn:Em; [done |].
  destruct (port_in self url core_command) eqn:Ec; [done |].
  destruct (port_in self url support_logging) eqn:El; [done |].
  by intros _ [].
Qed.

Lemma port_in_init configuration url s :
  exists p,
    edgex_ports (__init__ configuration) !! service_name s = Some p /\
    port_in (__init__ configuration) url s = str_in p url.
Proof. destruct s; eexists; split; reflexivity. Qed.

Section Payloads.

Variable _get_raw_data : string -> exn + option string.
Variable int : string -> exn + Z.
Variable json_loads : string -> exn + json.

Local Abbreviation the_metrics := (_get_metrics_data _get_raw_data json_loads).

(** With a port of [s] the first to occur in the URL, and a payload
    that has the four members, the routine enqueues the fragment of
    [s] and reports nothing. *)
Lemma metrics_complete configuration url raw members memory
    alloc mallocs frees live s w :
  let self := __init__ configuration in
  _get_raw_data (url +:+ "metrics") = inr (Some raw) ->
  raw ≠ EmptyString ->
  json_loads raw = inr (JObj members) ->
  members !! "Memory" = Some (JObj memory) ->
  memory !! "Alloc" = Some alloc ->
  memory !! "Mallocs" = Some mallocs ->
  memory !! "Frees" = Some frees ->
  memory !! "LiveObjects" = Some live ->
  attribution self url = Some s ->
  the_metrics self url w =
  (inr tt,
   World (queue w ++ [metrics_fragment s alloc mallocs frees live]) (errors w)).
Proof.
  intros self Hfetch Hraw Hjson Hmem Ha Hm Hf Hl Hs.
  apply attribution_Some in Hs as [Hs Hfirst].
  pose proof (memory_value_member _ _ _ _ Hmem Ha) as Va.
  pose proof (memory_value_member _ _ _ _ Hmem Hm) as Vm.
  pose proof (memory_value_member _ _ _ _ Hmem Hf) as Vf.
  pose proof (memory_value_member _ _ _ _ Hmem Hl) as Vl.
  destruct (port_in_init configuration url core_data) as (pd & Epd & Hpd).
  destruct (port_in_init configuration url core_metadata) as (pm & Epm & Hpm).
  destruct (port_in_init configuration url core_command) as (pc & Epc & Hpc).
  destruct (port_in_init configuration url support_logging) as (pl & Epl & Hpl).
  fold self in Epd, Epm, Epc, Epl, Hpd, Hpm, Hpc, Hpl.
  cbn [service_name] in Epd, Epm, Epc, Epl.
  unfold _get_metrics_data, get_survive_any, try_except.
  rewrite (bind_lift_inr _ _ _ _ Hfetch).
  destruct raw as [| c raw]; [done |].
  rewrite (bind_lift_inr _ _ _ _ Hjson), (bind_port _ _ _ _ _ Epd).
  destruct s.
  - rewrite <- Hpd, Hs.
    by rewrite (bind_memory _ _ _ _ _ Va), (bind_memory _ _ _ _ _ Vm),
      (bind_memory _ _ _ _ _ Vf), (bind_memory _ _ _ _ _ Vl).
  - rewrite <- Hpd, (Hfirst core_data) by (cbn; lia).
    rewrite (bind_port _ _ _ _ _ Epm), <- Hpm, Hs.
    by rewrite (bind_memory _ _ _ _ _ Va), (bind_memory _ _ _ _ _ Vm),
      (bind_memory _ _ _ _ _ Vf), (bind_memory _ _ _ _ _ Vl).
  - rewrite <- Hpd, (Hfirst core_data) by (cbn; lia).
    rewrite (bind_port _ _ _ _ _ Epm), <- Hpm, (Hfirst core_metadata) by (cbn; lia).
    rewrite (bind_port _ _ _ _ _ Epc), <- Hpc, Hs.
    by rewrite (bind_memory _ _ _ _ _ Va), (bind_memory _ _ _ _ _ Vm),
      (bind_memory _ _ _ _ _ Vf).
  - rewrite <- Hpd, (Hfirst core_data) by (cbn; lia).
    rewrite (bind_port _ _ _ _ _ Epm), <- Hpm, (Hfirst core_metadata) by (cbn; lia).
    rewrite (bind_port _ _ _ _ _ Epc), <- Hpc, (Hfirst core_command) by (cbn; lia).
    rewrite (bind_port _ _ _ _ _ Epl), <- Hpl, Hs.
    by rewrite (bind_memory _ _ _ _ _ Va), (bind_memory _ _ _ _ _ Vm),
      (bind_memory _ _ _ _ _ Vf), (bind_memory _ _ _ _ _ Vl).
Qed.

End Payloads.

Section Parsers.

Variable _get_raw_data : string -> exn + option string.
Variable int : string -> exn + Z.
Variable json_loads : string -> exn + json.

Local Abbreviation the_events := (_get_core_throughput_events _get_raw_data int).
Local Abbreviation the_readings :=
  (_get_core_throughput_readings _get_raw_data int).
Local Abbreviation the_devices := (_get_device_info _get_raw_data json_loads).
Local Abbreviation the_metrics := (_get_metrics_data _get_raw_data json_loads).

(** C5, as the code has it. On a body that is integer text the
    event-count routine enqueues the fragment with the one field
    [events], the integer as its value; it has no [readings], whatever
    the URL. *)
Theorem event_count_yields_events_only self url raw n w :
  _get_raw_data (url +:+ "event/count") = inr (Some raw) ->
  raw ≠ EmptyString ->
  int raw = inr n ->
  exists frag,
    the_events self url w = (inr tt, World (queue w ++ [frag]) (errors w)) /\
    frag !! "events" = Some (JInt n) /\
    frag !! "readings" = None /\
    dom frag = {[ "events" ]}.
Proof.
  intros Hfetch Hraw Hint. exists {[ "events" := JInt n ]}. split_and!.
  - unfold _get_core_throughput_events, get_survive_any, try_except.
    rewrite (bind_lift_inr _ _ _ _ Hfetch).
    destruct raw as [| c raw]; [done |].
    by rewrite (bind_lift_inr _ _ _ _ Hint).
  - apply lookup_singleton_eq.
  - by apply lookup_singleton_ne.
  - apply dom_singleton_L.
Qed.

(** C6. With a port of service [s] the first to occur in the URL, and
    a JSON object whose [Memory] has [Alloc], [Mallocs], [Frees] and
    [LiveObjects], the runtime-metrics routine enqueues the fields
    [<s>_alloc], [<s>_malloc], [<s>_frees] and, unless [s] is
    [core_command], [<s>_live_objects], and no other field. *)
Theorem metrics_fields_by_service configuration url raw members memory
    alloc mallocs frees live s w :
  let self := __init__ configuration in
  _get_raw_data (url +:+ "metrics") = inr (Some raw) ->
  raw ≠ EmptyString ->
  json_loads raw = inr (JObj members) ->
  members !! "Memory" = Some (JObj memory) ->
  memory !! "Alloc" = Some alloc ->
  memory !! "Mallocs" = Some mallocs ->
  memory !! "Frees" = Some frees ->
  memory !! "LiveObjects" = Some live ->
  attribution self url = Some s ->
  exists frag,
    the_metrics self url w = (inr tt, World (queue w ++ [frag]) (errors w)) /\
    frag !! (service_name s +:+ "_alloc") = Some alloc /\
    frag !! (service_name s +:+ "_malloc") = Some mallocs /\
    frag !! (service_name s +:+ "_frees") = Some frees /\
    frag !! (service_name s +:+ "_live_objects") =
      match s with core_command => None | _ => Some live end /\
    size frag = match s with core_command => 3%nat | _ => 4%nat end.
Proof.
  intros self Hfetch Hraw Hjson Hmem Ha Hm Hf Hl Hs.
  exists (metrics_fragment s alloc mallocs frees live).
  split; [by eapply metrics_complete |].
  destruct s; by vm_compute.
Qed.

(** C10. The device-list routine takes [len] of whatever the body
    decodes to: the number of items of an array, the number of keys of
    an object, the number of characters of a string; a number has no
    length and the fragment is empty. *)
Theorem registered_devices_is_len self url raw parsed w :
  _get_raw_data (url +:+ "device") = inr (Some raw) ->
  raw ≠ EmptyString ->
  json_loads raw = inr parsed ->
  exists frag,
    queue (snd (the_devices self url w)) = queue w ++ [frag] /\
    fst (the_devices self url w) = inr tt /\
    (forall items, parsed = JArr items ->
       frag = {[ "registered_devices" := JInt (Z.of_nat (length items)) ]}) /\
    (forall members, parsed = JObj members ->
       frag = {[ "registered_devices" := JInt (Z.of_nat (size members)) ]}) /\
    (forall s, parsed = JStr s ->
       frag = {[ "registered_devices" := JInt (Z.of_nat (String.length s)) ]}) /\
    (forall z, parsed = JInt z -> frag = ∅) /\
    (forall lit, parsed = JFloat lit -> frag = ∅).
Proof.
  intros Hfetch Hraw Hjson.
  unfold _get_device_info, get_survive_any, try_except.
  rewrite (bind_lift_inr _ _ _ _ Hfetch).
  destruct raw as [| c raw]; [done |].
  rewrite (bind_lift_inr _ _ _ _ Hjson).
  destruct parsed; cbv [bind lift py_len queue_put self_error snd fst queue errors];
    eexists; (split; [reflexivity |]); split_and!; (done || by intros ? [= <-]).
Qed.

(** C9, as the code has it. With none of the four ports in the URL the
    runtime-metrics routine returns and enqueues the empty fragment,
    whatever the body; it reports no error when the body is absent,
    empty or decodes, and it reports the decoder's error otherwise.
    With several ports in the URL the fields are those of the first
    service, in the order of the tests, whose port occurs. *)
Theorem metrics_attribution_first_match configuration url w :
  let self := __init__ configuration in
  let fetched := _get_raw_data (url +:+ "metrics") in
  let after := the_metrics self url w in
  ((forall s, port_in self url s = false) ->
   fst after = inr tt /\
   queue (snd after) = queue w ++ [∅] /\
   (fetched = inr None \/ fetched = inr (Some EmptyString) \/
    (exists raw parsed, fetched = inr (Some raw) /\ json_loads raw = inr parsed) ->
    errors (snd after) = errors w) /\
   (forall raw e,
       fetched = inr (Some raw) -> raw ≠ EmptyString ->
       json_loads raw = inl e ->
       errors (snd after) = errors w ++ [(url, e)])) /\
  (forall s raw members memory alloc mallocs frees live,
      port_in self url s = true ->
      (forall s', (rank s' < rank s)%nat -> port_in self url s' = false) ->
      fetched = inr (Some raw) ->
      raw ≠ EmptyString ->
      json_loads raw = inr (JObj members) ->
      members !! "Memory" = Some (JObj memory) ->
      memory !! "Alloc" = Some alloc ->
      memory !! "Mallocs" = Some mallocs ->
      memory !! "Frees" = Some frees ->
      memory !! "LiveObjects" = Some live ->
      after =
      (inr tt,
       World (queue w ++ [metrics_fragment s alloc mallocs frees live])
         (errors w))).
Proof.
  intros self fetched after. split.
  - intros Hnone.
    destruct (port_in_init configuration url core_data) as (pd & Epd & Hpd).
    destruct (port_in_init configuration url core_metadata) as (pm & Epm & Hpm).
    destruct (port_in_init configuration url core_command) as (pc & Epc & Hpc).
    destruct (port_in_init configuration url support_logging) as (pl & Epl & Hpl).
    fold self in Epd, Epm, Epc, Epl, Hpd, Hpm, Hpc, Hpl.
    cbn [service_name] in Epd, Epm, Epc, Epl.
    rewrite Hnone in Hpd, Hpm, Hpc, Hpl.
    subst after. unfold _get_metrics_data, get_survive_any, try_except.
    fold fetched.
    destruct fetched as [e | [[| c raw] |]] eqn:Hfetch.
    + rewrite (bind_lift_inl _ _ _ _ eq_refl). cbn.
      split_and!; [done | done | | done].
      intros [? | [? | (? & ? & ? & _)]]; done.
    + rewrite (bind_lift_inr _ _ _ _ eq_refl). cbn.
      split_and!; [done | done | done |]. by intros ? ? [= <-].
    + rewrite (bind_lift_inr _ _ _ _ eq_refl).
      destruct (json_loads (String c raw)) as [e | parsed] eqn:Hjson.
      * rewrite (bind_lift_inl _ _ _ _ eq_refl). cbn.
        split_and!; [done | done | |].
        -- intros [? | [? | (? & ? & [= <-] & ?)]]; congruence.
        -- intros ? ? [= <-] _ ?. congruence.
      * rewrite (bind_lift_inr _ _ _ _ eq_refl).
        rewrite (bind_port _ _ _ _ _ Epd), <- Hpd.
        rewrite (bind_port _ _ _ _ _ Epm), <- Hpm.
        rewrite (bind_port _ _ _ _ _ Epc), <- Hpc.
        rewrite (bind_port _ _ _ _ _ Epl), <- Hpl. cbn.
        split_and!; [done | done | done |].
        intros ? ? [= <-] _ ?. congruence.
    + rewrite (bind_lift_inr _ _ _ _ eq_refl). cbn.
      split_and!; [done | done | done |]. intros ? ? [=].
  - intros s raw members memory alloc mallocs frees live Hs Hfirst Hfetch.
    intros Hraw Hjson Hmem Ha Hm Hf Hl.
    eapply metrics_complete; try eassumption.
    by apply attribution_first.
Qed.

End Parsers.

(** ** Keys of the sources *)

Lemma all_apart_keys_apart q : all_apart q = true -> keys_apart q.
Proof.
  induction q as [| frag q IH]; intros Hq i j fi fj Hne Hi Hj.
  - by rewrite lookup_nil in Hi.
  - cbn in Hq. apply andb_prop in Hq as [Hhead Htail].
    rewrite forallb_forall in Hhead.
    assert (forall g, g ∈ q -> dom frag ## dom g) as Hfrag.
    { intros g Hg. apply list_elem_of_In in Hg. apply Hhead in Hg.
      apply bool_decide_eq_true_1 in Hg. by apply disjoint_intersection_L. }
    destruct i as [| i], j as [| j]; simplify_eq/=.
    + apply Hfrag. apply list_elem_of_lookup. eauto.
    + symmetry. apply Hfrag. apply list_elem_of_lookup. eauto.
    + apply (IH Htail i j); [congruence | done | done].
Qed.

Lemma prefix_app p s : String.prefix p (p +:+ s) = true.
Proof.
  induction p as [| c p IH]; [by destruct s |].
  change (String.prefix (String c p) (String c (p +:+ s)) = true).
  cbn [String.prefix]. by destruct (ascii_dec c c).
Qed.

Lemma str_in_app_r s p t : str_in p t = true -> str_in p (s +:+ t) = true.
Proof.
  intros H. induction s as [| c s IH]; [exact H |].
  change (str_in p (String c (s +:+ t)) = true).
  cbn [str_in]. rewrite IH. apply orb_true_r.
Qed.

Lemma str_in_middle s p t : str_in p (s +:+ p +:+ t) = true.
Proof.
  apply str_in_app_r.
  assert (str_in p (p +:+ t) = String.prefix p (p +:+ t) || str_in p (p +:+ t))
    as -> by (destruct (p +:+ t); cbn [str_in]; by destruct (String.prefix _ _)).
  by rewrite prefix_app.
Qed.

Lemma data_url_attribution configuration :
  attribution (__init__ configuration) (url_core_data (__init__ configuration))
  = Some core_data.
Proof.
  apply attribution_first; [| intros [] Hr; cbn in Hr; lia].
  destruct (port_in_init configuration
              (url_core_data (__init__ configuration)) core_data)
    as (pd & Epd & ->).
  injection Epd as <-. cbn [__init__ url_core_data].
  apply str_in_app_r, (str_in_app_r ":"), (str_in_middle EmptyString).
Qed.

Section Keys.

Variable _get_raw_data : string -> exn + option string.
Variable int : string -> exn + Z.
Variable json_loads : string -> exn + json.

Local Abbreviation the_routine := (routine _get_raw_data int json_loads).
Local Abbreviation the_methods := (methods _get_raw_data int json_loads).
Local Abbreviation the_get_data := (_get_data _get_raw_data int json_loads).

Lemma routine_dom kind self url frag :
  frag ∈ produced (the_routine kind self url) ->
  dom frag ⊆ source_fields kind self url.
Proof.
  destruct (routine_plan _get_raw_data int json_loads kind self url)
    as (plan & Hrun & Hplan).
  rewrite (unit_runs_produced _ _ _ Hrun).
  intros ->%list_elem_of_singleton.
  unfold plan_of_fetch in Hplan.
  destruct (_get_raw_data _) as [e | [[| c raw] |]]; subst;
    cbn [plan_fragment]; rewrite ?dom_empty_L; try set_solver.
  destruct plan as [e | frag]; cbn [plan_fragment].
  - rewrite dom_empty_L. set_solver.
  - by destruct Hplan as [-> _].
Qed.

(** C3, as the code has it. When the core-data URL does not contain
    [event], and the port of another service does not occur in a URL
    before the port of the URL's own service is tested, the fragments
    of two distinct entries of the method table have no key in
    common. *)
Theorem sources_keys_disjoint configuration i j mi mj fi fj :
  let self := __init__ configuration in
  str_in "event" (url_core_data self) = false ->
  attribution self (url_core_metadata self) = Some core_metadata ->
  attribution self (url_core_command self) = Some core_command ->
  attribution self (url_support_logging self) = Some support_logging ->
  i ≠ j ->
  the_methods self !! i = Some mi ->
  the_methods self !! j = Some mj ->
  fi ∈ produced (METHODS.get_data mi (METHODS.url mi)) ->
  fj ∈ produced (METHODS.get_data mj (METHODS.url mj)) ->
  dom fi ## dom fj.
Proof.
  intros self Hevent Hmeta Hcommand Hlogging Hne Hi Hj Hfi Hfj.
  pose proof (data_url_attribution configuration) as Hdata. fold self in Hdata.
  clearbody self.
  assert (forall n m f,
    the_methods self !! n = Some m ->
    f ∈ produced (METHODS.get_data m (METHODS.url m)) ->
    dom f ⊆
      default ∅
        ([ {[ "events" ]}; {[ "readings" ]}; {[ "registered_devices" ]};
           metric_fields core_metadata; metric_fields core_data;
           metric_fields core_command; metric_fields support_logging ]
         !! n)) as Hkeys.
  { intros n m f Hn Hf.
    destruct n as [| [| [| [| [| [| [| n]]]]]]];
      [injection Hn as <- .. | discriminate Hn];
      cbn [METHODS.get_data METHODS.url] in Hf;
      [ apply (routine_dom event_count) in Hf
      | apply (routine_dom reading_count) in Hf
      | apply (routine_dom device_list) in Hf
      | apply (routine_dom runtime_metrics) in Hf
      | apply (routine_dom runtime_metrics) in Hf
      | apply (routine_dom runtime_metrics) in Hf
      | apply (routine_dom runtime_metrics) in Hf ];
      cbn [source_fields] in Hf;
      rewrite ?Hevent, ?Hmeta, ?Hdata, ?Hcommand, ?Hlogging in Hf; exact Hf. }
  pose proof (Hkeys i mi fi Hi Hfi) as Ki.
  pose proof (Hkeys j mj fj Hj Hfj) as Kj.
  assert (forall A B : gset string, bool_decide (A ∩ B = ∅) = true ->
            dom fi ⊆ A -> dom fj ⊆ B -> dom fi ## dom fj) as Hsub.
  { intros A B HAB%bool_decide_eq_true_1 ? ?. set_solver. }
  clear Hkeys Hfi Hfj.
  destruct i as [| [| [| [| [| [| [| i]]]]]]]; try discriminate Hi;
    destruct j as [| [| [| [| [| [| [| j]]]]]]]; try discriminate Hj;
    try done;
    (eapply Hsub; [| exact Ki | exact Kj]); vm_compute; reflexivity.
Qed.

(** C4, as the code has it. The merge is [dict.update]: for a key that
    several fragments hold, the call returns, without a fault, the
    snapshot with the value of the fragment taken last from the
    queue; the values taken before are overwritten. *)
Theorem merge_keeps_last_value self schedule q1 frag q2 k v :
  let threads := start_threads (the_methods self) in
  fair threads schedule ->
  dequeued threads schedule = q1 ++ frag :: q2 ->
  frag !! k = Some v ->
  Forall (fun g => g !! k = None) q2 ->
  exists snapshot,
    the_get_data self schedule = Returned (Some snapshot) /\
    snapshot !! k = Some v.
Proof.
  intros threads Hfair Hq Hk Hq2.
  destruct (get_data_returned _get_raw_data int json_loads self schedule Hfair)
    as [_ Hret].
  fold threads in Hret. rewrite Hq in Hret.
  pose proof (merged_last q1 frag q2 k v Hk Hq2) as Hlast.
  exists (merged (q1 ++ frag :: q2)). split; [| exact Hlast].
  rewrite Hret. f_equal. apply or_None_Some. split; [done |].
  intros Hempty. by rewrite Hempty, lookup_empty in Hlast.
Qed.

(** C7, as the code has it. Under every fair schedule [_get_data]
    returns, whatever the sources did: no exception of a source leaves
    the call. A source that raised contributes the empty fragment, and
    every field of the snapshot is a field, with its value, of a source
    that did not raise. The snapshot holds the value of every field of
    a source whose key no other thread of the cycle produces, and so
    the whole fragment of a source none of whose keys is produced by
    another thread; only a key that two threads produce can differ
    from what one of them counted. *)
Theorem failed_sources_only_lose_their_fields self schedule :
  let threads := start_threads (the_methods self) in
  fair threads schedule ->
  exists snapshot,
    the_get_data self schedule = Returned (or_None snapshot) /\
    (forall i target,
        threads !! i = Some target ->
        exists frag,
          produced target = [frag] /\
          (reported target ≠ [] -> frag = ∅) /\
          (forall k v,
              frag !! k = Some v -> unshared threads i k ->
              snapshot !! k = Some v) /\
          ((forall k, k ∈ dom frag -> unshared threads i k) ->
           frag ⊆ snapshot)) /\
    (forall k v,
        snapshot !! k = Some v ->
        exists target frag,
          target ∈ threads /\
          produced target = [frag] /\
          reported target = [] /\
          frag !! k = Some v).
Proof.
  intros threads Hfair.
  destruct (get_data_returned _get_raw_data int json_loads self schedule Hfair)
    as [Hperm Hret].
  fold threads in Hperm, Hret.
  set (q := dequeued threads schedule) in *.
  pose proof (methods_reporting _get_raw_data int json_loads self) as Hthreads.
  fold threads in Hthreads. rewrite Forall_forall in Hthreads.
  exists (merged q). split_and!.
  - exact Hret.
  - intros i target Hi.
    assert (target ∈ threads) as Hin by (apply list_elem_of_lookup; eauto).
    destruct (Hthreads target Hin) as (url & plan & Hrun).
    pose proof (unit_runs_produced _ _ _ Hrun) as Hfrag.
    exists (plan_fragment plan).
    rewrite (unit_runs_reported _ _ _ Hrun).
    assert (forall k v,
              plan_fragment plan !! k = Some v -> unshared threads i k ->
              merged q !! k = Some v) as Hkey.
    { intros k v Hk Honly.
      apply (merged_agreed q (plan_fragment plan)); [| exact Hk |].
      - rewrite Hperm. apply list_elem_of_bind. exists target.
        split; [| exact Hin]. rewrite Hfrag. by apply list_elem_of_singleton.
      - intros g v' Hg Hv'. rewrite Hperm in Hg.
        apply list_elem_of_bind in Hg as (other & Hg & [j Hj]%list_elem_of_lookup).
        destruct (decide (j = i)) as [-> | Hne].
        + rewrite Hi in Hj. injection Hj as <-. rewrite Hfrag in Hg.
          apply list_elem_of_singleton in Hg as ->. congruence.
        + pose proof (Honly j other Hne Hj) as Hnone.
          rewrite Forall_forall in Hnone. rewrite (Hnone g Hg) in Hv'. done. }
    split_and!.
    + exact Hfrag.
    + by destruct plan.
    + exact Hkey.
    + intros Hall. apply map_subseteq_spec. intros k v Hk.
      apply Hkey; [exact Hk |]. apply Hall, elem_of_dom. eauto.
  - intros k v (frag & Hfrag & Hk)%merged_lookup_Some.
    rewrite Hperm in Hfrag.
    apply list_elem_of_bind in Hfrag as (target & Hfrag & Hin).
    destruct (Hthreads target Hin) as (url & plan & Hrun).
    exists target, frag.
    rewrite (unit_runs_produced _ _ _ Hrun) in Hfrag |-*.
    rewrite (unit_runs_reported _ _ _ Hrun).
    apply list_elem_of_singleton in Hfrag as ->.
    split_and!; [done | done | | done].
    destruct plan; [| done]. cbn [plan_fragment] in Hk.
    by rewrite lookup_empty in Hk.
Qed.

End Keys.

(** ** The claims on concrete inputs *)

Lemma no_data_iff_all_fragments_empty_witness :
  _get_data zero_net Runtime.int Runtime.json_loads (__init__ default_config)
    in_order =
  Returned (Some (<["events" := JInt 0]> (<["readings" := JInt 0]> ∅))) /\
  exists snapshot,
    _get_data zero_net Runtime.int Runtime.json_loads (__init__ default_config)
      in_order = Returned (Some snapshot) /\
    snapshot ≠ ∅ /\
    forall j v, snapshot !! j = Some v -> v = JInt 0.
Proof.
  split; [vm_compute; reflexivity |].
  pose (threads :=
          start_threads
            (methods zero_net Runtime.int Runtime.json_loads
               (__init__ default_config))).
  assert (fair threads in_order) as Hfair
    by (unfold fair; change (in_order ≡ₚ in_order); reflexivity).
  assert (fragments threads =
          [ {[ "events" := JInt 0 ]}; {[ "readings" := JInt 0 ]};
            ∅; ∅; ∅; ∅; ∅ ]) as Hcycle by (vm_compute; reflexivity).
  destruct (no_data_iff_all_fragments_empty zero_net Runtime.int
              Runtime.json_loads (__init__ default_config) in_order Hfair)
    as (_ & _ & _ & Hzero).
  fold threads in Hzero. rewrite Hcycle in Hzero.
  apply (Hzero {[ "events" := JInt 0 ]} "events").
  - apply list_elem_of_here.
  - rewrite lookup_singleton_eq. by eexists.
  - intros g j v Hg Hv.
    repeat (apply elem_of_cons in Hg as [-> | Hg]);
      [ apply lookup_singleton_Some in Hv as [_ <-]; reflexivity
      | apply lookup_singleton_Some in Hv as [_ <-]; reflexivity
      | by rewrite lookup_empty in Hv .. | by apply elem_of_nil in Hg ].
Defined.

Lemma sources_keys_disjoint_witness :
  dom ({[ "events" := JInt 42 ]} : fragment) ##
  dom ({[ "registered_devices" := JInt 3 ]} : fragment).
Proof.
  pose (self := __init__ default_config).
  apply (sources_keys_disjoint scenario_net Runtime.int Runtime.json_loads
           default_config 0 2
           (METHODS.Make
              (_get_core_throughput_events scenario_net Runtime.int self)
              (url_core_data self) true)
           (METHODS.Make
              (_get_device_info scenario_net Runtime.json_loads self)
              (url_core_metadata self) true)).
  - reflexivity.
  - reflexivity.
  - reflexivity.
  - reflexivity.
  - lia.
  - reflexivity.
  - reflexivity.
  - assert (produced
              (_get_core_throughput_events scenario_net Runtime.int self
                 (url_core_data self)) = [ {[ "events" := JInt 42 ]} ]) as H
      by (vm_compute; reflexivity).
    cbn [METHODS.get_data METHODS.url]. rewrite H. apply list_elem_of_here.
  - assert (produced
              (_get_device_info scenario_net Runtime.json_loads self
                 (url_core_metadata self)) =
            [ {[ "registered_devices" := JInt 3 ]} ]) as H
      by (vm_compute; reflexivity).
    cbn [METHODS.get_data METHODS.url]. rewrite H. apply list_elem_of_here.
Defined.

(** C3 fails as stated: with a host name that contains [event] the
    reading-count routine mirrors its count into [events], the key of
    the event-count routine. *)
Lemma reading_count_shares_events_key :
  let self := __init__ event_host_config in
  produced (_get_core_throughput_events event_host_net Runtime.int self
              (url_core_data self)) = [ {[ "events" := JInt 5 ]} ] /\
  produced (_get_core_throughput_readings event_host_net Runtime.int self
              (url_core_data self)) =
    [ <["events" := JInt 7]> {[ "readings" := JInt 7 ]} ] /\
  ~ (dom ({[ "events" := JInt 5 ]} : fragment) ##
     dom (<["events" := JInt 7]> {[ "readings" := JInt 7 ]} : fragment)).
Proof.
  split_and!; [vm_compute; reflexivity | vm_compute; reflexivity |].
  intros H. apply (H "events").
  - rewrite dom_singleton_L. by apply elem_of_singleton.
  - rewrite dom_insert_L. apply elem_of_union. left. by apply elem_of_singleton.
Qed.

Lemma merge_keeps_last_value_witness :
  exists snapshot,
    _get_data event_host_net Runtime.int Runtime.json_loads
      (__init__ event_host_config) in_order = Returned (Some snapshot) /\
    snapshot !! "events" = Some (JInt 7).
Proof.
  apply (merge_keeps_last_value event_host_net Runtime.int Runtime.json_loads
           (__init__ event_host_config) in_order
           [ {[ "events" := JInt 5 ]} ]
           (<["events" := JInt 7]> {[ "readings" := JInt 7 ]})
           [ ∅; ∅; ∅; ∅; ∅ ]).
  - unfold fair. change (in_order ≡ₚ in_order). reflexivity.
  - vm_compute; reflexivity.
  - vm_compute; reflexivity.
  - repeat constructor.
Defined.

(** C4 fails as stated: the event-count and the reading-count
    fragments both hold [events], and the call returns a snapshot, in
    which the 5 of the event count is overwritten by the 7 of the
    reading count; no fault reaches the caller. *)
Lemma colliding_keys_merged_without_fault :
  let self := __init__ event_host_config in
  fragments (start_threads
               (methods event_host_net Runtime.int Runtime.json_loads self)) =
    [ {[ "events" := JInt 5 ]};
      <["events" := JInt 7]> {[ "readings" := JInt 7 ]};
      ∅; ∅; ∅; ∅; ∅ ] /\
  _get_data event_host_net Runtime.int Runtime.json_loads self in_order =
    Returned (Some (<["events" := JInt 7]> {[ "readings" := JInt 7 ]})) /\
  forall e,
    _get_data event_host_net Runtime.int Runtime.json_loads self in_order
    ≠ Raised e.
Proof.
  split_and!; [vm_compute; reflexivity | vm_compute; reflexivity |].
  intros e. vm_compute. discriminate.
Qed.

Lemma event_count_yields_events_only_witness :
  exists frag,
    _get_core_throughput_events scenario_net Runtime.int
      (__init__ default_config) "http://localhost:48080/api/v1/" (World [] []) =
    (inr tt, World ([] ++ [frag]) []) /\
    frag !! "events" = Some (JInt 42) /\
    frag !! "readings" = None /\
    dom frag = {[ "events" ]}.
Proof.
  apply (event_count_yields_events_only scenario_net Runtime.int
           (__init__ default_config) "http://localhost:48080/api/v1/" "42" 42
           (World [] [])).
  - reflexivity.
  - discriminate.
  - reflexivity.
Defined.

(** C5 fails as stated: on a URL that contains [event] and [reading]
    the event-count routine still enqueues [events] alone, while the
    reading-count routine, on the same URL, mirrors into [events]. *)
Lemma event_count_never_adds_readings :
  let self := __init__ mirror_host_config in
  str_in "reading" (url_core_data self) = true /\
  str_in "event" (url_core_data self) = true /\
  produced (_get_core_throughput_events mirror_host_net Runtime.int self
              (url_core_data self)) = [ {[ "events" := JInt 42 ]} ] /\
  ({[ "events" := JInt 42 ]} : fragment) !! "readings" = None /\
  produced (_get_core_throughput_readings mirror_host_net Runtime.int self
              (url_core_data self)) =
    [ <["events" := JInt 7]> {[ "readings" := JInt 7 ]} ].
Proof. split_and!; vm_compute; reflexivity. Qed.

Lemma metrics_fields_by_service_witness :
  exists frag,
    _get_metrics_data memory_net Runtime.json_loads (__init__ default_config)
      "http://localhost:48081/api/v1/" (World [] []) =
    (inr tt, World ([] ++ [frag]) []) /\
    frag !! "core_metadata_alloc" = Some (JInt 100) /\
    frag !! "core_metadata_malloc" = Some (JInt 5) /\
    frag !! "core_metadata_frees" = Some (JInt 2) /\
    frag !! "core_metadata_live_objects" = Some (JInt 3) /\
    size frag = 4%nat.
Proof.
  apply (metrics_fields_by_service memory_net Runtime.json_loads
           default_config "http://localhost:48081/api/v1/"
           (Runtime.dq
              "{'Memory':{'Alloc':100,'Mallocs':5,'Frees':2,'LiveObjects':3}}")
           {[ "Memory" :=
                JObj (<["Alloc" := JInt 100]> (<["Mallocs" := JInt 5]>
                     (<["Frees" := JInt 2]> {[ "LiveObjects" := JInt 3 ]}))) ]}
           (<["Alloc" := JInt 100]> (<["Mallocs" := JInt 5]>
              (<["Frees" := JInt 2]> {[ "LiveObjects" := JInt 3 ]})))
           (JInt 100) (JInt 5) (JInt 2) (JInt 3) core_metadata (World [] [])).
  - reflexivity.
  - discriminate.
  - vm_compute; reflexivity.
  - vm_compute; reflexivity.
  - vm_compute; reflexivity.
  - vm_compute; reflexivity.
  - vm_compute; reflexivity.
  - vm_compute; reflexivity.
  - vm_compute; reflexivity.
Defined.

Lemma failed_sources_only_lose_their_fields_witness :
  let self := __init__ event_host_config in
  reported (_get_device_info broken_device_net Runtime.json_loads self
              (url_core_metadata self)) ≠ [] /\
  exists snapshot,
    _get_data broken_device_net Runtime.int Runtime.json_loads self in_order =
      Returned (or_None snapshot) /\
    snapshot !! "readings" = Some (JInt 7) /\
    snapshot !! "core_metadata_alloc" = Some (JInt 100).
Proof.
  intros self.
  pose (threads :=
          start_threads
            (methods broken_device_net Runtime.int Runtime.json_loads self)).
  assert (fair threads in_order) as Hfair
    by (unfold fair; change (in_order ≡ₚ in_order); reflexivity).
  assert (Forall reporting threads) as Hthreads by apply methods_reporting.
  split; [intros H; vm_compute in H; discriminate H |].
  destruct (failed_sources_only_lose_their_fields broken_device_net Runtime.int
              Runtime.json_loads self in_order Hfair)
    as (snapshot & Hret & Hkept & _).
  exists snapshot. split; [exact Hret |].
  assert (forall i target frag k v,
            threads !! i = Some target -> produced target = [frag] ->
            frag !! k = Some v -> alone (fragments threads) i k = true ->
            snapshot !! k = Some v) as Hin.
  { intros i target frag k v Hi Hfrag Hk Halone.
    destruct (Hkept i target Hi) as (frag' & Hfrag' & _ & Hkey & _).
    rewrite Hfrag in Hfrag'. injection Hfrag' as <-.
    apply Hkey; [exact Hk |]. by apply alone_unshared. }
  split.
  - apply (Hin 1%nat
             (_get_core_throughput_readings broken_device_net Runtime.int self
                (url_core_data self))
             (<["events" := JInt 7]> {[ "readings" := JInt 7 ]}));
      [reflexivity | vm_compute; reflexivity | vm_compute; reflexivity
      | vm_compute; reflexivity].
  - apply (Hin 3%nat
             (_get_metrics_data broken_device_net Runtime.json_loads self
                (url_core_metadata self))
             (metrics_fragment core_metadata
                (JInt 100) (JInt 5) (JInt 2) (JInt 3)));
      [reflexivity | vm_compute; reflexivity | vm_compute; reflexivity
      | vm_compute; reflexivity].
Defined.

(** C7 fails as stated: with the host [event-gw] the event-count
    source does not fail and counts 5, and the snapshot holds 7 for
    [events], the count of the readings. *)
Lemma snapshot_loses_event_count :
  let self := __init__ event_host_config in
  produced (_get_core_throughput_events event_host_net Runtime.int self
              (url_core_data self)) = [ {[ "events" := JInt 5 ]} ] /\
  reported (_get_core_throughput_events event_host_net Runtime.int self
              (url_core_data self)) = [] /\
  exists snapshot,
    _get_data event_host_net Runtime.int Runtime.json_loads self in_order =
      Returned (Some snapshot) /\
    snapshot !! "events" = Some (JInt 7) /\
    ~ ({[ "events" := JInt 5 ]} : fragment) ⊆ snapshot.
Proof.
  split_and!; [vm_compute; reflexivity | vm_compute; reflexivity |].
  exists (<["events" := JInt 7]> {[ "readings" := JInt 7 ]}).
  split_and!; [vm_compute; reflexivity | vm_compute; reflexivity |].
  intros H. rewrite map_subseteq_spec in H.
  specialize (H "events" (JInt 5) (lookup_singleton_eq _ _)).
  vm_compute in H. discriminate H.
Qed.

(** C9 fails as stated: on a URL with none of the ports and a body
    that is not JSON, the routine enqueues the empty fragment and
    reports the decoder's error. *)
Lemma unmatched_url_reports_decoder_error :
  let self := __init__ default_config in
  (forall s, port_in self stray_url s = false) /\
  _get_metrics_data stray_net Runtime.json_loads self stray_url (World [] []) =
  (inr tt, World [∅] [(stray_url, ValueError)]).
Proof.
  split; [by intros [] |]. vm_compute; reflexivity.
Qed.

Lemma registered_devices_is_len_witness :
  exists frag,
    queue (snd (_get_device_info object_net Runtime.json_loads
                  (__init__ default_config) "http://localhost:48081/api/v1/"
                  (World [] []))) = [] ++ [frag] /\
    frag = {[ "registered_devices" := JInt 2 ]}.
Proof.
  destruct (registered_devices_is_len object_net Runtime.json_loads
              (__init__ default_config) "http://localhost:48081/api/v1/"
              (Runtime.dq "{'a':1,'b':2}")
              (JObj (<["a" := JInt 1]> {[ "b" := JInt 2 ]}))
              (World [] []))
    as (frag & Hq & _ & _ & Hobj & _).
  - reflexivity.
  - discriminate.
  - vm_compute; reflexivity.
  - exists frag. split; [exact Hq |].
    rewrite (Hobj (<["a" := JInt 1]> {[ "b" := JInt 2 ]}) eq_refl).
    vm_compute; reflexivity.
Defined.

(** * Further properties of the collector *)


Lemma subseteq_by_difference (A B : gset string) :
  bool_decide (A ∖ B = ∅) = true -> A ⊆ B.
Proof.
  intros H%bool_decide_eq_true_1 k Hk.
  destruct (decide (k ∈ B)) as [| Hout]; [done |].
  assert (k ∈ A ∖ B) as Hin by (by apply elem_of_difference).
  rewrite H in Hin. by apply elem_of_empty in Hin.
Qed.

Lemma elem_of_by_singleton (k : string) (B : gset string) :
  bool_decide ({[ k ]} ∖ B = ∅) = true -> k ∈ B.
Proof.
  intros H. apply (subseteq_by_difference {[ k ]} B H). by apply elem_of_singleton.
Qed.

(** Every field a source can contribute is charted, and none is the
    [live_objects] of [core_command]. *)
Lemma source_fields_charted kind self url :
  source_fields kind self url ⊆ charted ∖ {[ "core_command_live_objects" ]}.
Proof.
  destruct kind; cbn [source_fields].
  - apply subseteq_by_difference. vm_compute. reflexivity.
  - destruct (str_in "event" url); apply subseteq_by_difference;
      vm_compute; reflexivity.
  - apply subseteq_by_difference. vm_compute. reflexivity.
  - destruct (attribution self url) as [[] |]; apply subseteq_by_difference;
      vm_compute; reflexivity.
Qed.

(** The sources of a kind contribute fields of that kind only. *)
Lemma source_fields_of_kind kind self url k :
  k ∈ source_fields kind self url ->
  match kind with
  | event_count => k = "events"
  | reading_count => k = "readings" \/ k = "events"
  | device_list => k = "registered_devices"
  | runtime_metrics =>
      k ≠ "events" /\ k ≠ "readings" /\ k ≠ "registered_devices"
  end.
Proof.
  destruct kind; cbn [source_fields].
  - by intros ->%elem_of_singleton.
  - destruct (str_in "event" url); set_solver.
  - by intros ->%elem_of_singleton.
  - destruct (attribution self url) as [[] |]; unfold metric_fields;
      cbn [service_name String.append]; intros Hk; set_unfold;
      split_and!; intros ->; destruct_or?; discriminate.
Qed.

Section Threads.

Variable _get_raw_data : string -> exn + option string.
Variable int : string -> exn + Z.
Variable json_loads : string -> exn + json.

Local Abbreviation the_routine := (routine _get_raw_data int json_loads).
Local Abbreviation the_methods := (methods _get_raw_data int json_loads).
Local Abbreviation the_get_data := (_get_data _get_raw_data int json_loads).

(** A thread of the cycle runs the routine of an enabled source. *)
Lemma thread_of_enabled_source self target :
  target ∈ start_threads (the_methods self) ->
  exists kind url,
    target = the_routine kind self url /\
    enabled (configuration self) kind = true.
Proof.
  rewrite start_threads_filter.
  intros (m & -> & [Hrun Hm]%list_elem_of_filter)%list_elem_of_fmap.
  unfold methods in Hm.
  repeat (apply elem_of_cons in Hm as [-> | Hm]); cbn in Hrun.
  - by exists event_count, (url_core_data self).
  - by exists reading_count, (url_core_data self).
  - by exists device_list, (url_core_metadata self).
  - by exists runtime_metrics, (url_core_metadata self).
  - by exists runtime_metrics, (url_core_data self).
  - by exists runtime_metrics, (url_core_command self).
  - by exists runtime_metrics, (url_support_logging self).
  - by apply elem_of_nil in Hm.
Qed.

(** A key of the snapshot is a field of an enabled source. *)
Lemma snapshot_key_of_enabled_source self schedule snapshot k :
  fair (start_threads (the_methods self)) schedule ->
  the_get_data self schedule = Returned (Some snapshot) ->
  k ∈ dom snapshot ->
  exists kind url,
    enabled (configuration self) kind = true /\
    k ∈ source_fields kind self url.
Proof.
  intros Hfair Hret Hk.
  destruct (get_data_returned _get_raw_data int json_loads self schedule Hfair)
    as [Hperm Hret'].
  rewrite Hret' in Hret. injection Hret as Hret.
  apply or_None_Some in Hret as [<- _].
  apply merged_dom in Hk as (frag & Hfrag & Hk).
  rewrite Hperm in Hfrag.
  apply list_elem_of_bind in Hfrag as (target & Hfrag & Htarget).
  destruct (thread_of_enabled_source self target Htarget)
    as (kind & url & -> & Henabled).
  exists kind, url. split; [exact Henabled |].
  by apply (routine_dom _get_raw_data int json_loads kind self url frag).
Qed.

(** X1. Whatever the configuration, the bodies and the schedule, every
    key of a returned snapshot is a dimension of a chart that [ORDER]
    lists; and the dimension [core_command_live_objects], which
    [CHARTS] declares, is in no snapshot. *)
Theorem snapshot_keys_are_charted self schedule snapshot :
  fair (start_threads (the_methods self)) schedule ->
  the_get_data self schedule = Returned (Some snapshot) ->
  dom snapshot ⊆ charted /\
  "core_command_live_objects" ∈ charted /\
  "core_command_live_objects" ∉ dom snapshot.
Proof.
  intros Hfair Hret.
  assert (dom snapshot ⊆ charted ∖ {[ "core_command_live_objects" ]}) as Hdom.
  { intros k Hk.
    destruct (snapshot_key_of_enabled_source self schedule snapshot k
                Hfair Hret Hk) as (kind & url & _ & Hin).
    by apply (source_fields_charted kind self url). }
  split_and!.
  - intros k Hk. by apply Hdom, elem_of_difference in Hk as [Hk _].
  - apply elem_of_by_singleton. vm_compute. reflexivity.
  - intros Hk. apply Hdom, elem_of_difference in Hk as [_ Hk].
    apply Hk. by apply elem_of_singleton.
Qed.

(** X2. A capability that the job switches off contributes nothing:
    without [events_per_second] the snapshot has neither [events] nor
    [readings], without [number_of_devices] no [registered_devices],
    and without [metrics] nothing but these three. *)
Theorem disabled_sources_contribute_nothing self schedule snapshot :
  fair (start_threads (the_methods self)) schedule ->
  the_get_data self schedule = Returned (Some snapshot) ->
  (enabled (configuration self) event_count = false ->
   ("events" ∉ dom snapshot) /\ ("readings" ∉ dom snapshot)) /\
  (enabled (configuration self) device_list = false ->
   "registered_devices" ∉ dom snapshot) /\
  (enabled (configuration self) runtime_metrics = false ->
   dom snapshot ⊆ {[ "events"; "readings"; "registered_devices" ]}).
Proof.
  intros Hfair Hret.
  assert (forall k, k ∈ dom snapshot ->
            exists kind url,
              enabled (configuration self) kind = true /\
              k ∈ source_fields kind self url) as Hkey
    by (intros k; by apply snapshot_key_of_enabled_source with schedule).
  split_and!.
  - intros Hoff. split; intros (kind & url & Hon & Hin)%Hkey;
      apply source_fields_of_kind in Hin;
      destruct kind; cbn [enabled] in Hon, Hoff; destruct_and?; destruct_or?;
      congruence.
  - intros Hoff (kind & url & Hon & Hin)%Hkey.
    apply source_fields_of_kind in Hin.
    destruct kind; cbn [enabled] in Hon, Hoff; destruct_and?; destruct_or?;
      congruence.
  - intros Hoff k (kind & url & Hon & Hin)%Hkey.
    apply source_fields_of_kind in Hin.
    destruct kind; cbn [enabled] in Hon, Hoff; [| | | congruence];
      destruct_or?; subst.
    + apply elem_of_union; left; apply elem_of_union; left;
        by apply elem_of_singleton.
    + apply elem_of_union; left; apply elem_of_union; right;
        by apply elem_of_singleton.
    + apply elem_of_union; left; apply elem_of_union; left;
        by apply elem_of_singleton.
    + apply elem_of_union; right; by apply elem_of_singleton.
Qed.

(** X3. With the three capabilities switched off no thread is started
    and [_get_data] returns [None], under every schedule. *)
Theorem all_disabled_returns_none self schedule :
  enabled (configuration self) event_count = false ->
  enabled (configuration self) device_list = false ->
  enabled (configuration self) runtime_metrics = false ->
  start_threads (the_methods self) = [] /\
  the_get_data self schedule = Returned None.
Proof.
  intros He Hd Hm.
  assert (start_threads (the_methods self) = []) as Hnone.
  { cbn [enabled] in He, Hd, Hm.
    unfold start_threads, methods. cbn [foldl METHODS.run].
    by rewrite He, Hd, Hm. }
  split; [exact Hnone |].
  unfold _get_data. rewrite Hnone.
  assert (forall w, run_threads [] schedule w = w) as ->.
  { unfold run_threads. induction schedule as [| i schedule IH]; [done |].
    intros w. cbn [foldl]. rewrite lookup_nil. apply IH. }
  reflexivity.
Qed.

End Threads.

(** ** Order of the threads and progress of the cycle *)

(** With keys apart the merge does not depend on the order. *)
Lemma merged_perm q q' : q ≡ₚ q' -> keys_apart q -> merged q = merged q'.
Proof.
  intros Hperm Hq. pose proof (keys_apart_perm q q' Hperm Hq) as Hq'.
  apply map_eq. intros k.
  destruct (merged q !! k) as [v |] eqn:E.
  - apply merged_lookup_Some in E as (frag & Hin & Hk).
    rewrite Hperm in Hin. symmetry.
    by apply (lookup_weaken frag), merged_keys_apart.
  - symmetry. apply merged_lookup_None. rewrite <- Hperm.
    by apply merged_lookup_None.
Qed.





Section Order.

Variable _get_raw_data : string -> exn + option string.
Variable int : string -> exn + Z.
Variable json_loads : string -> exn + json.

Local Abbreviation the_methods := (methods _get_raw_data int json_loads).
Local Abbreviation the_get_data := (_get_data _get_raw_data int json_loads).

(** X4. When no two fragments of the cycle have a key in common, the
    order in which the threads finish has no effect: [_get_data]
    returns the same under every fair schedule, and the interleaved
    cycle has one result. *)
Theorem result_independent_of_thread_order self :
  let threads := start_threads (the_methods self) in
  keys_apart (fragments threads) ->
  (forall s1 s2,
      fair threads s1 -> fair threads s2 ->
      the_get_data self s1 = the_get_data self s2) /\
  (forall r1 r2, returns threads r1 -> returns threads r2 -> r1 = r2).
Proof.
  intros threads Hapart.
  assert (forall s1 s2, fair threads s1 -> fair threads s2 ->
            the_get_data self s1 = the_get_data self s2) as Hsame.
  { intros s1 s2 H1 H2.
    destruct (get_data_returned _get_raw_data int json_loads self s1 H1)
      as [P1 ->].
    destruct (get_data_returned _get_raw_data int json_loads self s2 H2)
      as [P2 ->].
    fold threads in P1, P2 |- *. do 2 f_equal.
    apply merged_perm; [by rewrite P1, P2 |].
    eapply keys_apart_perm; [symmetry; exact P1 | exact Hapart]. }
  split; [exact Hsame |].
  intros r1 r2
    (s1 & H1 & R1)%(get_data_interleaved _get_raw_data int json_loads)
    (s2 & H2 & R2)%(get_data_interleaved _get_raw_data int json_loads).
  rewrite (Hsame s1 s2 H1 H2) in R1. congruence.
Qed.


End Order.

(** ** The mirror of the reading count *)

Section Mirror.

Variable _get_raw_data : string -> exn + option string.
Variable int : string -> exn + Z.

Local Abbreviation the_readings :=
  (_get_core_throughput_readings _get_raw_data int).

(** X6. On a body that is integer text the reading-count routine
    enqueues [readings] with the integer; it enqueues [events] with the
    same integer exactly when [event] occurs in the URL it was given,
    and nothing else. *)
Theorem reading_count_mirrors_into_events self url raw n w :
  _get_raw_data (url +:+ "reading/count") = inr (Some raw) ->
  raw ≠ EmptyString ->
  int raw = inr n ->
  exists frag,
    the_readings self url w = (inr tt, World (queue w ++ [frag]) (errors w)) /\
    frag !! "readings" = Some (JInt n) /\
    frag !! "events" = (if str_in "event" url then Some (JInt n) else None) /\
    dom frag =
      (if str_in "event" url then {[ "readings"; "events" ]}
       else {[ "readings" ]}).
Proof.
  intros Hfetch Hraw Hint.
  exists (if str_in "event" url
          then <["events" := JInt n]> {[ "readings" := JInt n ]}
          else {[ "readings" := JInt n ]}).
  split_and!.
  - unfold _get_core_throughput_readings, get_survive_any, try_except.
    rewrite (bind_lift_inr _ _ _ _ Hfetch).
    destruct raw as [| c raw]; [done |].
    rewrite (bind_lift_inr _ _ _ _ Hint).
    by destruct (str_in "event" url).
  - destruct (str_in "event" url).
    + rewrite lookup_insert_ne by done. apply lookup_singleton_eq.
    + apply lookup_singleton_eq.
  - destruct (str_in "event" url).
    + apply lookup_insert_eq.
    + by apply lookup_singleton_ne.
  - destruct (str_in "event" url).
    + rewrite dom_insert_L, dom_singleton_L. apply set_eq. intros k.
      rewrite !elem_of_union, !elem_of_singleton. tauto.
    + apply dom_singleton_L.
Qed.

End Mirror.

(** ** Counters and reports *)

Section Counters.

Variable _get_raw_data : string -> exn + option string.
Variable int : string -> exn + Z.
Variable json_loads : string -> exn + json.

Local Abbreviation the_routine := (routine _get_raw_data int json_loads).
Local Abbreviation the_methods := (methods _get_raw_data int json_loads).
Local Abbreviation the_get_data := (_get_data _get_raw_data int json_loads).
(** X7. A routine reports at most one error per run, under the URL it
    was given (not the URL it fetched), and then enqueues the empty
    fragment.  An absent or empty body is not reported; an exception of
    the fetch is. *)
Theorem routine_reports_at_most_one_error kind self url w :
  let fetched := _get_raw_data (url +:+ endpoint kind) in
  let after := snd (the_routine kind self url w) in
  (errors after = errors w \/
   exists e, errors after = errors w ++ [(url, e)] /\
             queue after = queue w ++ [∅]) /\
  (fetched = inr None \/ fetched = inr (Some EmptyString) ->
   errors after = errors w /\ queue after = queue w ++ [∅]) /\
  (forall e, fetched = inl e -> errors after = errors w ++ [(url, e)]).
Proof.
  intros fetched after.
  destruct (routine_plan _get_raw_data int json_loads kind self url)
    as (plan & Hrun & Hplan).
  unfold plan_of_fetch in Hplan. fold fetched in Hplan.
  subst after. rewrite (Hrun w). cbn [snd errors queue].
  split_and!.
  - destruct plan as [e | frag]; cbn [plan_errors plan_fragment].
    + right. by exists e.
    + left. apply app_nil_r.
  - intros [Hf | Hf]; rewrite Hf in Hplan; subst plan;
      cbn [plan_errors plan_fragment]; by rewrite app_nil_r.
  - intros e Hf. rewrite Hf in Hplan. by subst plan.
Qed.

(** The values of the counters: integers, and for the devices a
    length. *)
Lemma counter_values kind self url frag k v :
  kind ≠ runtime_metrics ->
  frag ∈ produced (the_routine kind self url) ->
  frag !! k = Some v ->
  exists n, v = JInt n /\ (kind = device_list -> (0 <= n)%Z).
Proof.
  intros Hkind.
  assert (exists plan,
            unit_runs (the_routine kind self url) url plan /\
            forall k v, plan_fragment plan !! k = Some v ->
            exists n, v = JInt n /\ (kind = device_list -> (0 <= n)%Z))
    as (plan & Hrun & Hvalues).
  { assert (forall k v, (∅ : fragment) !! k = Some v ->
              exists n, v = JInt n /\ (kind = device_list -> (0 <= n)%Z))
      as Hempty by (intros k0 v0 H0; by rewrite lookup_empty in H0).
    destruct kind; [| | | done]; cbn [routine];
      apply plans_unit_runs; apply plans_bind;
      (destruct (_get_raw_data _) as [e | [[| c raw] |]];
       [ exact Hempty | apply plans_put; exact Hempty
       | | apply plans_put; exact Hempty ]).
    - apply plans_bind. destruct (int _) as [e | n]; [exact Hempty |].
      apply plans_put. cbn [plan_fragment]. intros k0 v0.
      rewrite lookup_insert_Some, lookup_empty.
      intros [[_ <-] | [_ [=]]]. by exists n.
    - apply plans_bind. destruct (int _) as [e | n]; [exact Hempty |].
      apply plans_put. cbn [plan_fragment]. intros k0 v0.
      destruct (str_in "event" url);
        rewrite ?lookup_insert_Some, lookup_empty;
        intros H0;
        repeat match goal with
               | H : _ \/ _ |- _ => destruct H
               | H : _ /\ _ |- _ => destruct H
               end;
        simplify_eq; by exists n.
    - apply plans_bind.
      destruct (json_loads _) as [e | parsed]; [exact Hempty |].
      apply plans_bind.
      destruct (py_len parsed) as [e | n] eqn:Hlen; [exact Hempty |].
      apply plans_put. cbn [plan_fragment]. intros k0 v0.
      rewrite lookup_insert_Some, lookup_empty.
      intros [[_ <-] | [_ [=]]]. exists n. split; [done |]. intros _.
      destruct parsed; simplify_eq/=; lia. }
  rewrite (unit_runs_produced _ _ _ Hrun).
  intros ->%list_elem_of_singleton. apply Hvalues.
Qed.

(** X8. In every snapshot [events], [readings] and
    [registered_devices] hold integers, and [registered_devices] is
    not negative, whatever the bodies were. *)
Theorem counters_are_integers self schedule snapshot :
  fair (start_threads (the_methods self)) schedule ->
  the_get_data self schedule = Returned (Some snapshot) ->
  (forall k v,
      k = "events" \/ k = "readings" \/ k = "registered_devices" ->
      snapshot !! k = Some v -> exists n, v = JInt n) /\
  (forall v,
      snapshot !! "registered_devices" = Some v ->
      exists n, v = JInt n /\ (0 <= n)%Z).
Proof.
  intros Hfair Hret.
  destruct (get_data_returned _get_raw_data int json_loads self schedule Hfair)
    as [Hperm Hret'].
  rewrite Hret' in Hret. injection Hret as Hret.
  apply or_None_Some in Hret as [<- _].
  assert (forall k v,
            k = "events" \/ k = "readings" \/ k = "registered_devices" ->
            merged (dequeued (start_threads (the_methods self)) schedule) !! k
              = Some v ->
            exists n, v = JInt n /\
                      (k = "registered_devices" -> (0 <= n)%Z)) as Hcounter.
  { intros k v Hk (frag & Hfrag & Hv)%merged_lookup_Some.
    rewrite Hperm in Hfrag.
    apply list_elem_of_bind in Hfrag as (target & Hfrag & Htarget).
    destruct (thread_of_enabled_source _get_raw_data int json_loads
                self target Htarget) as (kind & url & -> & _).
    assert (k ∈ source_fields kind self url) as Hin.
    { apply (routine_dom _get_raw_data int json_loads kind self url frag Hfrag).
      apply elem_of_dom. eauto. }
    apply source_fields_of_kind in Hin.
    assert (kind = runtime_metrics \/ kind ≠ runtime_metrics) as [-> | Hkind]
      by (destruct kind; (by left) || (by right)).
    - destruct Hin as (? & ? & ?). destruct_or?; done.
    - destruct (counter_values kind self url frag k v Hkind Hfrag Hv)
        as (n & -> & Hlen).
      exists n. split; [done |]. intros ->. apply Hlen.
      destruct kind; destruct_or?; done. }
  split.
  - intros k v Hk Hv. destruct (Hcounter k v Hk Hv) as (n & -> & _). eauto.
  - intros v Hv.
    destruct (Hcounter "registered_devices" v) as (n & -> & Hn); eauto.
Qed.

End Counters.

(** ** Which service a URL of [init_urls] is attributed to *)

Lemma prefix_nil s : String.prefix EmptyString s = true.
Proof. by destruct s. Qed.

Lemma str_in_nil s : str_in EmptyString s = true.
Proof. destruct s; cbn [str_in]; by rewrite prefix_nil. Qed.

Lemma prefix_app_l p s t :
  String.prefix p s = true -> String.prefix p (s +:+ t) = true.
Proof.
  revert p. induction s as [| x s IH]; intros [| y p] H.
  - apply prefix_nil.
  - discriminate H.
  - apply prefix_nil.
  - change (String.prefix (String y p) (String x (s +:+ t)) = true).
    cbn [String.prefix] in H |- *.
    destruct (ascii_dec y x); [by apply IH | done].
Qed.

Lemma str_in_app_l p s t : str_in p s = true -> str_in p (s +:+ t) = true.
Proof.
  induction s as [| x s IH]; intros H.
  - cbn [str_in] in H. rewrite orb_false_r in H.
    destruct p; [apply str_in_nil | by destruct p].
  - change (str_in p (String x (s +:+ t)) = true).
    cbn [str_in] in H |- *. apply orb_true_iff in H as [H | H].
    + change (String x (s +:+ t)) with (String x s +:+ t).
      by rewrite (prefix_app_l _ _ _ H).
    + rewrite (IH H). apply orb_true_r.
Qed.

Lemma prefix_sep c p s t :
  lacks c p = true ->
  String.prefix p (s +:+ String c t) = String.prefix p s.
Proof.
  revert p. induction s as [| x s IH]; intros [| y p] Hp.
  - by rewrite !prefix_nil.
  - cbn [lacks] in Hp. apply andb_prop in Hp as [Hy _].
    change (String.prefix (String y p) (String c t) = false).
    cbn [String.prefix]. destruct (ascii_dec y c) as [-> |]; [| done].
    by rewrite Ascii.eqb_refl in Hy.
  - by rewrite !prefix_nil.
  - cbn [lacks] in Hp. apply andb_prop in Hp as [_ Hp].
    change (String.prefix (String y p) (String x (s +:+ String c t)) =
            String.prefix (String y p) (String x s)).
    cbn [String.prefix]. destruct (ascii_dec y x); [by apply IH | done].
Qed.

(** A text without the separator occurs around the separator only if
    it occurs on one of its sides. *)
Lemma str_in_sep c p s t :
  lacks c p = true -> p ≠ EmptyString ->
  str_in p (s +:+ String c t) = str_in p s || str_in p t.
Proof.
  intros Hp Hne. induction s as [| x s IH].
  - change (str_in p (String c t) = str_in p EmptyString || str_in p t).
    cbn [str_in].
    pose proof (prefix_sep c p EmptyString t Hp) as H0.
    change (EmptyString +:+ String c t) with (String c t) in H0.
    rewrite H0. by destruct p.
  - change (str_in p (String x (s +:+ String c t)) =
            str_in p (String x s) || str_in p t).
    cbn [str_in]. rewrite IH.
    change (String x (s +:+ String c t)) with (String x s +:+ String c t).
    rewrite (prefix_sep c p (String x s) t Hp). by rewrite orb_assoc.
Qed.

(** [self.edgex_ports[s]] of a constructed service. *)
Lemma service_url_shape configuration s :
  let self := __init__ configuration in
  exists p,
    edgex_ports self !! service_name s = Some p /\
    service_url self s = url self +:+ String ":" (p +:+ "/api/v1/") /\
    forall u, port_in self u s = str_in p u.
Proof. destruct s; eexists; split_and!; reflexivity. Qed.

Lemma own_port_occurs configuration s :
  port_in (__init__ configuration) (service_url (__init__ configuration) s) s
  = true.
Proof.
  destruct (service_url_shape configuration s) as (p & _ & -> & ->).
  apply str_in_app_r, (str_in_app_r ":"), (str_in_middle EmptyString).
Qed.

Lemma attribution_upto self u s :
  port_in self u s = true ->
  exists s', attribution self u = Some s' /\ (rank s' <= rank s)%nat.
Proof.
  intros Hs. unfold attribution, services. cbn [List.find].
  destruct (port_in self u core_data) eqn:Ed;
    [exists core_data; split; [done | cbn; lia] |].
  destruct (port_in self u core_metadata) eqn:Em;
    [exists core_metadata; split; [done | destruct s; cbn; (lia || congruence)] |].
  destruct (port_in self u core_command) eqn:Ec;
    [exists core_command; split; [done | destruct s; cbn; (lia || congruence)] |].
  destruct (port_in self u support_logging) eqn:El;
    [exists support_logging; split; [done | destruct s; cbn; (lia || congruence)] |].
  destruct s; congruence.
Qed.

Section Urls.

Variable _get_raw_data : string -> exn + option string.
Variable json_loads : string -> exn + json.

Local Abbreviation the_metrics := (_get_metrics_data _get_raw_data json_loads).

(** X9. The URL that [init_urls] builds for a service contains the
    port of the service, so the runtime-metrics routine attributes it
    to a service, never to none: to the service itself or to one that
    is tested before it.  The URL of [core_data] is always attributed
    to [core_data]. *)
Theorem service_url_is_attributed configuration s :
  let self := __init__ configuration in
  (exists s',
      attribution self (service_url self s) = Some s' /\
      (rank s' <= rank s)%nat) /\
  attribution self (service_url self core_data) = Some core_data.
Proof.
  intros self. split.
  - apply attribution_upto, own_port_occurs.
  - destruct (attribution_upto self (service_url self core_data) core_data
                (own_port_occurs configuration core_data))
      as ([] & H & Hr); cbn in Hr; (exact H || lia).
Qed.

(** X10. When the port of a service tested earlier occurs in the scheme
    and host, or in the port of a service [s], the URL of [s] is
    attributed to a service tested before [s], and whatever the
    runtime-metrics routine contributes for [s] is under the names of
    that other service. *)
Theorem port_inside_port_misattributes configuration s s' p p' :
  let self := __init__ configuration in
  (rank s' < rank s)%nat ->
  edgex_ports self !! service_name s = Some p ->
  edgex_ports self !! service_name s' = Some p' ->
  str_in p' (url self) = true \/ str_in p' p = true ->
  exists s'',
    (rank s'' < rank s)%nat /\
    attribution self (service_url self s) = Some s'' /\
    forall frag,
      frag ∈ produced (the_metrics self (service_url self s)) ->
      dom frag ⊆ metric_fields s''.
Proof.
  intros self Hrank Hp Hp' Hin.
  destruct (service_url_shape configuration s) as (q & Hq & Hurl & _).
  destruct (service_url_shape configuration s') as (q' & Hq' & _ & Hport).
  fold self in Hq, Hurl, Hq', Hport.
  assert (q = p) as -> by congruence. assert (q' = p') as -> by congruence.
  assert (port_in self (service_url self s) s' = true) as Hs'.
  { rewrite Hport, Hurl. destruct Hin as [Hin | Hin].
    - by apply str_in_app_l.
    - by apply str_in_app_r, (str_in_app_r ":"), str_in_app_l. }
  destruct (attribution_upto self (service_url self s) s' Hs')
    as (s'' & Hattr & Hle).
  exists s''. split_and!; [lia | exact Hattr |].
  intros frag Hfrag.
  pose proof (routine_dom _get_raw_data (fun _ => inl ValueError) json_loads
                runtime_metrics self (service_url self s) frag Hfrag) as Hdom.
  cbn [source_fields] in Hdom. by rewrite Hattr in Hdom.
Qed.

(** X11. When no port of a service tested earlier contains a colon or
    occurs in the scheme and host or in the port of [s] followed by the
    path, the URL of [s] is attributed to [s]. *)
Theorem service_url_attributed_to_own_service configuration s :
  let self := __init__ configuration in
  (forall s' p p',
      (rank s' < rank s)%nat ->
      edgex_ports self !! service_name s = Some p ->
      edgex_ports self !! service_name s' = Some p' ->
      lacks ":" p' = true /\
      str_in p' (url self) = false /\
      str_in p' (p +:+ "/api/v1/") = false) ->
  attribution self (service_url self s) = Some s.
Proof.
  intros self Hclean.
  apply attribution_first; [apply own_port_occurs |].
  intros s' Hrank.
  destruct (service_url_shape configuration s) as (p & Hp & Hurl & _).
  destruct (service_url_shape configuration s') as (p' & Hp' & _ & Hport).
  fold self in Hp, Hurl, Hp', Hport.
  destruct (Hclean s' p p' Hrank Hp Hp') as (Hcolon & Hhost & Hpath).
  rewrite Hport, Hurl, str_in_sep, Hhost, Hpath; [done | exact Hcolon |].
  intros ->. by rewrite str_in_nil in Hhost.
Qed.

End Urls.

(** X12. The URL that the two counters are given contains [event]
    exactly when the scheme and host, or the port of [core_data],
    contain it: only then does the reading-count routine mirror into
    [events]. *)
Theorem mirror_depends_on_host_and_port configuration :
  let self := __init__ configuration in
  str_in "event" (url_core_data self) =
  str_in "event" (url self) ||
  str_in "event" (get (port_data configuration) "48080").
Proof.
  intros self.
  destruct (service_url_shape configuration core_data) as (p & Hp & Hurl & _).
  fold self in Hp, Hurl. cbn [service_url] in Hurl.
  injection Hp as <-. rewrite Hurl.
  rewrite str_in_sep by done. f_equal.
  set (p := edgex_ports self !!! "core_data").
  change (get (port_data configuration) "48080") with p.
  change (p +:+ "/api/v1/") with (p +:+ String "/" "api/v1/").
  rewrite str_in_sep by done.
  apply orb_false_r.
Qed.

(** ** The mirrored key and the order of the threads *)

(** The key of a thread that the later threads do not hold. *)
Lemma merged_schedule threads s1 i s2 frag k v :
  turn threads i = [frag] ->
  frag !! k = Some v ->
  (forall j, j ∈ s2 -> Forall (fun g => g !! k = None) (turn threads j)) ->
  merged ((s1 ++ i :: s2) ≫= turn threads) !! k = Some v.
Proof.
  intros Hi Hk Hlater.
  rewrite bind_app, bind_cons, Hi. cbn [app].
  apply merged_last; [exact Hk |].
  apply Forall_bind, Forall_forall. exact Hlater.
Qed.

Section Race.

Variable _get_raw_data : string -> exn + option string.
Variable int : string -> exn + Z.
Variable json_loads : string -> exn + json.

Local Abbreviation the_routine := (routine _get_raw_data int json_loads).
Local Abbreviation the_methods := (methods _get_raw_data int json_loads).
Local Abbreviation the_get_data := (_get_data _get_raw_data int json_loads).

(** With the counters enabled the first two threads are the event
    count and the reading count; the others are device lists and
    runtime metrics. *)
Lemma counters_first self :
  enabled (configuration self) event_count = true ->
  exists others,
    start_threads (the_methods self) =
      the_routine event_count self (url_core_data self) ::
      the_routine reading_count self (url_core_data self) :: others /\
    forall target, target ∈ others ->
      exists kind url,
        target = the_routine kind self url /\
        (kind = device_list \/ kind = runtime_metrics).
Proof.
  intros Hon. cbn [enabled] in Hon.
  rewrite start_threads_filter. unfold methods.
  rewrite !filter_cons, filter_nil. cbn [METHODS.run].
  rewrite Hon.
  destruct (get (number_of_devices (configuration self)) true),
    (get (metrics (configuration self)) true);
    rewrite ?decide_True, ?decide_False by done;
    cbn [fmap list_fmap METHODS.get_data METHODS.url];
    eexists; (split; [reflexivity |]); intros target Htarget;
    repeat (apply elem_of_cons in Htarget as [-> | Htarget]);
    try (by apply elem_of_nil in Htarget).
  all: first
    [ by exists device_list, (url_core_metadata self); split; [| left]
    | by exists runtime_metrics, (url_core_metadata self); split; [| right]
    | by exists runtime_metrics, (url_core_data self); split; [| right]
    | by exists runtime_metrics, (url_core_command self); split; [| right]
    | by exists runtime_metrics, (url_support_logging self); split; [| right] ].
Qed.

Lemma no_counter_keys kind self url frag k :
  kind = device_list \/ kind = runtime_metrics ->
  k = "events" \/ k = "readings" ->
  frag ∈ produced (the_routine kind self url) ->
  frag !! k = None.
Proof.
  intros Hkind Hk Hfrag.
  apply not_elem_of_dom. intros Hin.
  apply (routine_dom _get_raw_data int json_loads kind self url frag Hfrag),
    source_fields_of_kind in Hin.
  destruct Hkind as [-> | ->], Hk as [-> | ->]; destruct_and?; done.
Qed.

(** X13. With [event] in the URL of the counters, and both counters
    answering integer text, the value of [events] in the snapshot is
    that of the thread that finishes last: the reading count when the
    event-count thread finishes first, the event count when the
    reading-count thread finishes first.  [readings] is the reading
    count in either case. *)
Theorem mirrored_events_follow_thread_order self schedule raw_e raw_r n m :
  let threads := start_threads (the_methods self) in
  enabled (configuration self) event_count = true ->
  str_in "event" (url_core_data self) = true ->
  _get_raw_data (url_core_data self +:+ "event/count") = inr (Some raw_e) ->
  raw_e ≠ EmptyString -> int raw_e = inr n ->
  _get_raw_data (url_core_data self +:+ "reading/count") = inr (Some raw_r) ->
  raw_r ≠ EmptyString -> int raw_r = inr m ->
  fair threads schedule ->
  exists snapshot,
    the_get_data self schedule = Returned (Some snapshot) /\
    snapshot !! "readings" = Some (JInt m) /\
    ((exists s1 s2 s3, schedule = s1 ++ 0%nat :: s2 ++ 1%nat :: s3) ->
     snapshot !! "events" = Some (JInt m)) /\
    ((exists s1 s2 s3, schedule = s1 ++ 1%nat :: s2 ++ 0%nat :: s3) ->
     snapshot !! "events" = Some (JInt n)).
Proof.
  intros threads Hon Hevent He Hre Hn Hr Hrr Hm Hfair.
  destruct (counters_first self Hon) as (others & Hthreads & Hothers).
  fold threads in Hthreads.
  pose proof (methods_reporting _get_raw_data int json_loads self) as Hrep.
  fold threads in Hrep.
  (* the two counters *)
  assert (turn threads 0 = [ {[ "events" := JInt n ]} ]) as H0.
  { unfold turn. rewrite Hthreads. cbn [lookup list_lookup].
    unfold produced. cbn [routine].
    unfold _get_core_throughput_events, get_survive_any, try_except.
    rewrite (bind_lift_inr _ _ _ _ He).
    destruct raw_e as [| c raw_e]; [done |].
    by rewrite (bind_lift_inr _ _ _ _ Hn). }
  assert (turn threads 1 =
            [ <["events" := JInt m]> {[ "readings" := JInt m ]} ]) as H1.
  { unfold turn. rewrite Hthreads. cbn [lookup list_lookup].
    unfold produced. cbn [routine].
    unfold _get_core_throughput_readings, get_survive_any, try_except.
    rewrite (bind_lift_inr _ _ _ _ Hr).
    destruct raw_r as [| c raw_r]; [done |].
    by rewrite (bind_lift_inr _ _ _ _ Hm), Hevent. }
  (* the other threads *)
  assert (forall j k, j ≠ 0%nat -> j ≠ 1%nat ->
            k = "events" \/ k = "readings" ->
            Forall (fun g => g !! k = None) (turn threads j)) as Hrest.
  { intros j k Hj0 Hj1 Hk. unfold turn.
    destruct (threads !! j) as [target |] eqn:Hj; [| constructor].
    rewrite Hthreads in Hj.
    destruct j as [| [| j]]; [done | done |]. cbn [lookup list_lookup] in Hj.
    destruct (Hothers target) as (kind & url & -> & Hkind).
    { apply list_elem_of_lookup. eauto. }
    apply Forall_forall. intros frag Hfrag.
    by apply (no_counter_keys kind self url). }
  assert (NoDup schedule) as Hnodup by (rewrite Hfair; apply NoDup_seq).
  destruct (get_data_returned _get_raw_data int json_loads self schedule Hfair)
    as [_ Hret].
  fold threads in Hret.
  assert (dequeued threads schedule = schedule ≫= turn threads) as Hq.
  { unfold dequeued. by rewrite run_threads_queue. }
  rewrite Hq in Hret.
  (* [readings] *)
  assert (merged (schedule ≫= turn threads) !! "readings" = Some (JInt m))
    as Hreadings.
  { assert (1%nat ∈ schedule) as Hin.
    { rewrite Hfair. apply elem_of_seq. rewrite Hthreads. cbn. lia. }
    apply list_elem_of_split in Hin as (s1 & s2 & ->).
    apply NoDup_app in Hnodup as (_ & _ & Hnodup).
    apply NoDup_cons in Hnodup as [Hfresh _].
    eapply merged_schedule; [exact H1 | |].
    - rewrite lookup_insert_ne by done. apply lookup_singleton_eq.
    - intros j Hj. destruct (decide (j = 0%nat)) as [-> | Hj0].
      + rewrite H0. constructor; [| constructor].
        by apply lookup_singleton_ne.
      + apply Hrest; [done | | by right]. intros ->. done. }
  exists (merged (schedule ≫= turn threads)). split_and!.
  - rewrite Hret. f_equal. apply or_None_Some. split; [done |].
    intros Hempty. by rewrite Hempty, lookup_empty in Hreadings.
  - exact Hreadings.
  - intros (s1 & s2 & s3 & ->).
    replace (s1 ++ 0%nat :: s2 ++ 1%nat :: s3)
      with ((s1 ++ 0%nat :: s2) ++ 1%nat :: s3) in *
      by (by rewrite <- app_assoc).
    apply NoDup_app in Hnodup as (_ & Hapart & Hnodup).
    apply NoDup_cons in Hnodup as [Hfresh _].
    eapply merged_schedule; [exact H1 | apply lookup_insert_eq |].
    intros j Hj. apply Hrest; [| | by left].
    + intros ->. apply (Hapart 0%nat); [| by apply list_elem_of_further].
      apply elem_of_app. right. apply list_elem_of_here.
    + intros ->. done.
  - intros (s1 & s2 & s3 & ->).
    replace (s1 ++ 1%nat :: s2 ++ 0%nat :: s3)
      with ((s1 ++ 1%nat :: s2) ++ 0%nat :: s3) in *
      by (by rewrite <- app_assoc).
    apply NoDup_app in Hnodup as (_ & Hapart & Hnodup).
    apply NoDup_cons in Hnodup as [Hfresh _].
    eapply merged_schedule; [exact H0 | apply lookup_singleton_eq |].
    intros j Hj. apply Hrest; [| | by left].
    + intros ->. done.
    + intros ->. apply (Hapart 1%nat); [| by apply list_elem_of_further].
      apply elem_of_app. right. apply list_elem_of_here.
Qed.

End Race.

(** ** A payload without [LiveObjects] *)

Lemma bind_memory_inl {B} parsed field e (k : json -> M B) w :
  memory_value parsed field = inl e ->
  bind (memory parsed field) k w = (inl e, w).
Proof.
  unfold memory_value, memory, bind, lift.
  destruct (py_getitem parsed "Memory"); [by intros [= ->] |]. by intros ->.
Qed.

Section LiveObjects.

Variable _get_raw_data : string -> exn + option string.
Variable json_loads : string -> exn + json.

Local Abbreviation the_metrics := (_get_metrics_data _get_raw_data json_loads).

(** X14. A payload whose [Memory] has [Alloc], [Mallocs] and [Frees]
    but no [LiveObjects] gives the three fields for [core_command],
    without an error; for each of the other services it gives the
    empty fragment, the three values read so far being dropped, and
    the [KeyError] is reported. *)
Theorem payload_without_live_objects configuration url raw members memory
    alloc mallocs frees s w :
  let self := __init__ configuration in
  _get_raw_data (url +:+ "metrics") = inr (Some raw) ->
  raw ≠ EmptyString ->
  json_loads raw = inr (JObj members) ->
  members !! "Memory" = Some (JObj memory) ->
  memory !! "Alloc" = Some alloc ->
  memory !! "Mallocs" = Some mallocs ->
  memory !! "Frees" = Some frees ->
  memory !! "LiveObjects" = None ->
  attribution self url = Some s ->
  the_metrics self url w =
  match s with
  | core_command =>
      (inr tt,
       World
         (queue w ++
          [ <["core_command_frees" := frees]>
              (<["core_command_malloc" := mallocs]>
                 {[ "core_command_alloc" := alloc ]}) ])
         (errors w))
  | _ =>
      (inr tt,
       World (queue w ++ [∅]) (errors w ++ [(url, KeyError "LiveObjects")]))
  end.
Proof.
  intros self Hfetch Hraw Hjson Hmem Ha Hm Hf Hl Hs.
  apply attribution_Some in Hs as [Hs Hfirst].
  pose proof (memory_value_member _ _ _ _ Hmem Ha) as Va.
  pose proof (memory_value_member _ _ _ _ Hmem Hm) as Vm.
  pose proof (memory_value_member _ _ _ _ Hmem Hf) as Vf.
  assert (memory_value (JObj members) "LiveObjects" =
          inl (KeyError "LiveObjects")) as Vl.
  { unfold memory_value. cbn. rewrite Hmem. cbn. by rewrite Hl. }
  destruct (port_in_init configuration url core_data) as (pd & Epd & Hpd).
  destruct (port_in_init configuration url core_metadata) as (pm & Epm & Hpm).
  destruct (port_in_init configuration url core_command) as (pc & Epc & Hpc).
  destruct (port_in_init configuration url support_logging) as (pl & Epl & Hpl).
  fold self in Epd, Epm, Epc, Epl, Hpd, Hpm, Hpc, Hpl.
  cbn [service_name] in Epd, Epm, Epc, Epl.
  unfold _get_metrics_data, get_survive_any, try_except.
  rewrite (bind_lift_inr _ _ _ _ Hfetch).
  destruct raw as [| c raw]; [done |].
  rewrite (bind_lift_inr _ _ _ _ Hjson), (bind_port _ _ _ _ _ Epd).
  destruct s.
  - rewrite <- Hpd, Hs.
    by rewrite (bind_memory _ _ _ _ _ Va), (bind_memory _ _ _ _ _ Vm),
      (bind_memory _ _ _ _ _ Vf), (bind_memory_inl _ _ _ _ _ Vl).
  - rewrite <- Hpd, (Hfirst core_data) by (cbn; lia).
    rewrite (bind_port _ _ _ _ _ Epm), <- Hpm, Hs.
    by rewrite (bind_memory _ _ _ _ _ Va), (bind_memory _ _ _ _ _ Vm),
      (bind_memory _ _ _ _ _ Vf), (bind_memory_inl _ _ _ _ _ Vl).
  - rewrite <- Hpd, (Hfirst core_data) by (cbn; lia).
    rewrite (bind_port _ _ _ _ _ Epm), <- Hpm, (Hfirst core_metadata) by (cbn; lia).
    rewrite (bind_port _ _ _ _ _ Epc), <- Hpc, Hs.
    by rewrite (bind_memory _ _ _ _ _ Va), (bind_memory _ _ _ _ _ Vm),
      (bind_memory _ _ _ _ _ Vf).
  - rewrite <- Hpd, (Hfirst core_data) by (cbn; lia).
    rewrite (bind_port _ _ _ _ _ Epm), <- Hpm, (Hfirst core_metadata) by (cbn; lia).
    rewrite (bind_port _ _ _ _ _ Epc), <- Hpc, (Hfirst core_command) by (cbn; lia).
    rewrite (bind_port _ _ _ _ _ Epl), <- Hpl, Hs.
    by rewrite (bind_memory _ _ _ _ _ Va), (bind_memory _ _ _ _ _ Vm),
      (bind_memory _ _ _ _ _ Vf), (bind_memory_inl _ _ _ _ _ Vl).
Qed.

End LiveObjects.

(** ** The further properties on concrete inputs *)

Lemma snapshot_keys_are_charted_witness :
  dom (<["events" := JInt 42]> {[ "registered_devices" := JInt 3 ]} : fragment)
    ⊆ charted /\
  "core_command_live_objects" ∈ charted /\
  "core_command_live_objects" ∉
    dom (<["events" := JInt 42]> {[ "registered_devices" := JInt 3 ]}
         : fragment).
Proof.
  apply (snapshot_keys_are_charted scenario_net Runtime.int Runtime.json_loads
           (__init__ default_config) in_order).
  - unfold fair. change (in_order ≡ₚ in_order). reflexivity.
  - vm_compute; reflexivity.
Defined.

Lemma disabled_sources_contribute_nothing_witness :
  dom ({[ "events" := JInt 42 ]} : fragment)
    ⊆ {[ "events"; "readings"; "registered_devices" ]}.
Proof.
  pose (self := __init__ metrics_off_config).
  destruct (disabled_sources_contribute_nothing busy_net Runtime.int
              Runtime.json_loads self [0; 1; 2]%nat {[ "events" := JInt 42 ]})
    as (_ & _ & Hoff).
  - unfold fair. change ([0; 1; 2]%nat ≡ₚ [0; 1; 2]%nat). reflexivity.
  - vm_compute; reflexivity.
  - apply Hoff. reflexivity.
Defined.

Lemma all_disabled_returns_none_witness :
  start_threads
    (methods scenario_net Runtime.int Runtime.json_loads
       (__init__ all_off_config)) = [] /\
  _get_data scenario_net Runtime.int Runtime.json_loads
    (__init__ all_off_config) in_order = Returned None.
Proof.
  apply (all_disabled_returns_none scenario_net Runtime.int Runtime.json_loads
           (__init__ all_off_config) in_order); reflexivity.
Defined.

Lemma result_independent_of_thread_order_witness :
  _get_data scenario_net Runtime.int Runtime.json_loads
    (__init__ default_config) in_order =
  _get_data scenario_net Runtime.int Runtime.json_loads
    (__init__ default_config) (reverse in_order).
Proof.
  pose (self := __init__ default_config).
  pose (threads :=
          start_threads (methods scenario_net Runtime.int Runtime.json_loads self)).
  assert (keys_apart (fragments threads)) as Hapart
    by (apply all_apart_keys_apart; vm_compute; reflexivity).
  destruct (result_independent_of_thread_order scenario_net Runtime.int
              Runtime.json_loads self Hapart) as [Hsame _].
  apply Hsame.
  - unfold fair. change (in_order ≡ₚ in_order). reflexivity.
  - unfold fair. change (reverse in_order ≡ₚ in_order).
    apply reverse_Permutation.
Defined.


Lemma reading_count_mirrors_into_events_witness :
  exists frag,
    _get_core_throughput_readings event_host_net Runtime.int
      (__init__ event_host_config) "http://event-gw:48080/api/v1/"
      (World [] []) = (inr tt, World ([] ++ [frag]) []) /\
    frag !! "readings" = Some (JInt 7) /\
    frag !! "events" = Some (JInt 7) /\
    dom frag = {[ "readings"; "events" ]}.
Proof.
  apply (reading_count_mirrors_into_events event_host_net Runtime.int
           (__init__ event_host_config) "http://event-gw:48080/api/v1/" "7" 7
           (World [] [])).
  - reflexivity.
  - discriminate.
  - reflexivity.
Defined.

Lemma counters_are_integers_witness :
  exists n,
    (<["events" := JInt 42]> {[ "registered_devices" := JInt 3 ]} : fragment)
      !! "registered_devices" = Some (JInt n) /\ (0 <= n)%Z.
Proof.
  destruct (counters_are_integers scenario_net Runtime.int Runtime.json_loads
              (__init__ default_config) in_order
              (<["events" := JInt 42]> {[ "registered_devices" := JInt 3 ]}))
    as [_ Hdevices].
  - unfold fair. change (in_order ≡ₚ in_order). reflexivity.
  - vm_compute; reflexivity.
  - destruct (Hdevices (JInt 3)) as (n & Hn & Hpos); [reflexivity |].
    exists n. split; [| exact Hpos]. by rewrite <- Hn.
Defined.

Lemma port_inside_port_misattributes_witness :
  exists s'',
    (rank s'' < rank core_metadata)%nat /\
    attribution (__init__ nested_ports_config)
      (service_url (__init__ nested_ports_config) core_metadata) = Some s'' /\
    forall frag,
      frag ∈ produced
               (_get_metrics_data memory_net Runtime.json_loads
                  (__init__ nested_ports_config)
                  (service_url (__init__ nested_ports_config) core_metadata)) ->
      dom frag ⊆ metric_fields s''.
Proof.
  apply (port_inside_port_misattributes memory_net Runtime.json_loads
           nested_ports_config core_metadata core_data "8080" "80").
  - cbn. lia.
  - reflexivity.
  - reflexivity.
  - right. reflexivity.
Defined.

Lemma service_url_attributed_to_own_service_witness :
  attribution (__init__ default_config)
    (service_url (__init__ default_config) support_logging)
  = Some support_logging.
Proof.
  apply (service_url_attributed_to_own_service default_config support_logging).
  intros s' p p' Hrank Hp Hp'. injection Hp as <-.
  destruct s'; cbn in Hrank; try lia; injection Hp' as <-;
    split_and!; reflexivity.
Defined.

Lemma mirrored_events_follow_thread_order_witness :
  exists snapshot,
    _get_data event_host_net Runtime.int Runtime.json_loads
      (__init__ event_host_config) in_order = Returned (Some snapshot) /\
    snapshot !! "readings" = Some (JInt 7) /\
    snapshot !! "events" = Some (JInt 7).
Proof.
  destruct (mirrored_events_follow_thread_order event_host_net Runtime.int
              Runtime.json_loads (__init__ event_host_config) in_order
              "5" "7" 5 7)
    as (snapshot & Hret & Hreadings & Hfirst & _).
  - reflexivity.
  - reflexivity.
  - reflexivity.
  - discriminate.
  - reflexivity.
  - reflexivity.
  - discriminate.
  - reflexivity.
  - unfold fair. change (in_order ≡ₚ in_order). reflexivity.
  - exists snapshot. split_and!; [exact Hret | exact Hreadings |].
    apply Hfirst. by exists [], [], [2; 3; 4; 5; 6]%nat.
Defined.

Lemma payload_without_live_objects_witness :
  _get_metrics_data command_net Runtime.json_loads (__init__ default_config)
    "http://localhost:48082/api/v1/" (World [] []) =
  (inr tt,
   World
     ([] ++
      [ <["core_command_frees" := JInt 2]>
          (<["core_command_malloc" := JInt 5]>
             {[ "core_command_alloc" := JInt 100 ]}) ])
     []).
Proof.
  apply (payload_without_live_objects command_net Runtime.json_loads
           default_config "http://localhost:48082/api/v1/"
           (Runtime.dq "{'Memory':{'Alloc':100,'Mallocs':5,'Frees':2}}")
           {[ "Memory" :=
                JObj (<["Alloc" := JInt 100]> (<["Mallocs" := JInt 5]>
                     {[ "Frees" := JInt 2 ]})) ]}
           (<["Alloc" := JInt 100]> (<["Mallocs" := JInt 5]>
              {[ "Frees" := JInt 2 ]}))
           (JInt 100) (JInt 5) (JInt 2) core_command (World [] [])).
  - reflexivity.
  - discriminate.
  - vm_compute; reflexivity.
  - vm_compute; reflexivity.
  - vm_compute; reflexivity.
  - vm_compute; reflexivity.
  - vm_compute; reflexivity.
  - vm_compute; reflexivity.
  - vm_compute; reflexivity.
Defined.
